(** * Static reflection (reflection.hpp): a shallow embedding

    The header generates, for a class that lists its data members in
    [REFLECTABLE(...)], a static member [_reflection_fields_n] and one
    partial specialisation [FieldData<index, Object>] per listed member,
    and offers [isReflectable], [visit], [print] and [prettyPrint] over
    them.

    Everything the header decides at translation time (macro expansion,
    [static_assert], [requires], overload selection, reference binding) is
    modelled by functions whose failure is a [Rejected] diagnostic; what
    runs afterwards is modelled by state passing over the callbacks'
    state. *)

From Stdlib Require Import String Ascii List ZArith Bool Lia DecimalString.
From Stdlib Require Import Permutation.
Import ListNotations.

Local Open Scope Z_scope.

(** ** Translation-time outcomes *)

Inductive diagnostic : Type :=
| static_assert_failure (message : string)
| ill_formed (what : string).

Inductive result (A : Type) : Type :=
| Ok (a : A)
| Rejected (d : diagnostic).

Arguments Ok {A} a.
Arguments Rejected {A} d.

Definition bind {A B} (r : result A) (k : A -> result B) : result B :=
  match r with
  | Ok a => k a
  | Rejected d => Rejected d
  end.

Notation "x <- r ;; k" := (bind r (fun x => k))
  (at level 100, r at next level, right associativity).

Definition static_assert (condition : bool) (message : string) : result unit :=
  if condition then Ok tt else Rejected (static_assert_failure message).

Definition is_ok {A} (r : result A) : bool :=
  match r with Ok _ => true | Rejected _ => false end.

(** ** The preprocessor part of the header *)

Module Preprocessor.

(** The argument list of an invocation [M(__VA_ARGS__, more...)] once
    [__VA_ARGS__] has been substituted: the arguments are what stands
    between the commas, so an empty [__VA_ARGS__] still leaves one
    (empty) argument in front of the first comma. *)
Definition splice {A} (empty : A) (va more : list A) : list A :=
  match va with
  | [] => empty :: more
  | _ => va ++ more
  end.

(** [COUNT_ARGS_IMPL(_1, ..., _32, N, ...) N] and
    [GET_MACRO(_1, ..., _32, NAME, ...) NAME]: the 33rd argument. *)
Definition COUNT_ARGS_IMPL {A} (args : list A) : option A := nth_error args 32.
Definition GET_MACRO {A} (args : list A) : option A := nth_error args 32.

(** A macro argument is either text the user wrote or a literal the
    header appended. *)
Definition COUNT_ARGS (va : list string) : option (string + Z) :=
  COUNT_ARGS_IMPL
    (splice (inl EmptyString) (map inl va)
       (map inr [32; 31; 30; 29; 28; 27; 26; 25; 24; 23; 22; 21; 20; 19; 18;
                 17; 16; 15; 14; 13; 12; 11; 10; 9; 8; 7; 6; 5; 4; 3; 2; 1; 0])).

(** [APPLY_MACRO_TO_EACH_k(macro, index, a, rest...)]: the header defines
    one macro per arity from 1 to 32 and none of another arity; each applies
    [macro(a, index)] and hands the rest to the next smaller one with
    [index + 1]. *)
Fixpoint APPLY_MACRO_TO_EACH_ {B} (k : nat) (macro : string -> nat -> B)
         (index : nat) (args : list string) : option (list B) :=
  if (32 <? k)%nat then None
  else
    match k, args with
    | 1%nat, [a] => Some [macro a index]
    | S k', a :: rest =>
        option_map (cons (macro a index))
                   (APPLY_MACRO_TO_EACH_ k' macro (index + 1)%nat rest)
    | _, _ => None
    end.

(** [APPLY_MACRO_TO_EACH(macro, ...)]: [GET_MACRO] selects the macro from
    the list [APPLY_MACRO_TO_EACH_32, ..., APPLY_MACRO_TO_EACH_1] (given
    here by its arity) and that macro is invoked on
    [(macro, 0, __VA_ARGS__)]. *)
Definition APPLY_MACRO_TO_EACH {B} (macro : string -> nat -> B)
           (va : list string) : option (list B) :=
  match GET_MACRO
          (splice (inl EmptyString) (map inl va)
             (map inr [32; 31; 30; 29; 28; 27; 26; 25; 24; 23; 22; 21; 20; 19;
                       18; 17; 16; 15; 14; 13; 12; 11; 10; 9; 8; 7; 6; 5; 4;
                       3; 2; 1]%nat))
  with
  | Some (inr k) =>
      APPLY_MACRO_TO_EACH_ k macro 0%nat (splice EmptyString va [])
  | Some (inl _) => None
  | None => None
  end.

End Preprocessor.

(** ** Types and type traits *)

(** A type is either one without a member [_reflection_fields_n] and of no
    further interest to the header ([int], [float], [std::string], ...), or
    a class with its data members in layout order and, when the class body
    invokes [REFLECTABLE(...)], the arguments of that invocation.  A data
    member is of object type: members declared as references are not
    modelled. *)
Unset Elimination Schemes.
Inductive ty : Type :=
| Fundamental (name : string)
| Class (name : string) (members : list (string * ty))
        (REFLECTABLE_args : option (list string)).
Set Elimination Schemes.

Definition ty_ind (P : ty -> Prop)
  (HF : forall name, P (Fundamental name))
  (HC : forall name members args,
      Forall (fun m => P (snd m)) members -> P (Class name members args)) :
  forall t, P t :=
  fix F (t : ty) : P t :=
    match t with
    | Fundamental name => HF name
    | Class name members args =>
        HC name members args
           ((fix G (ms : list (string * ty)) : Forall (fun m => P (snd m)) ms :=
               match ms with
               | [] => Forall_nil _
               | m :: ms' => Forall_cons m (F (snd m)) (G ms')
               end) members)
    end.

Inductive ref_qualifier : Type := no_ref | lvalue_ref | rvalue_ref.

(** [const], [volatile] and [&]/[&&] around a type; with a reference the
    cv-qualifiers are those of the referred-to type. *)
Record qualifiers : Type := {
  q_const : bool;
  q_volatile : bool;
  q_ref : ref_qualifier
}.

Record qtype : Type := { q_base : ty; q_quals : qualifiers }.

Definition unqualified : qualifiers :=
  {| q_const := false; q_volatile := false; q_ref := no_ref |}.
Definition plain (t : ty) : qtype := {| q_base := t; q_quals := unqualified |}.
Definition lref (is_const : bool) (t : ty) : qtype :=
  {| q_base := t;
     q_quals := {| q_const := is_const; q_volatile := false; q_ref := lvalue_ref |} |}.

Definition remove_reference_t (T : qtype) : qtype :=
  {| q_base := q_base T;
     q_quals := {| q_const := q_const (q_quals T);
                   q_volatile := q_volatile (q_quals T);
                   q_ref := no_ref |} |}.

(** Only top-level qualifiers are removed: a reference type has none. *)
Definition remove_cv_t (T : qtype) : qtype :=
  match q_ref (q_quals T) with
  | no_ref => {| q_base := q_base T; q_quals := unqualified |}
  | _ => T
  end.

Definition remove_cvref_t (T : qtype) : qtype := remove_cv_t (remove_reference_t T).

(** For the class and fundamental types modelled here (no arrays, no
    functions) [std::decay_t] removes the reference and then the
    cv-qualifiers. *)
Definition decay_t (T : qtype) : qtype := remove_cv_t (remove_reference_t T).

(** [std::is_const_v]: a reference type is never const-qualified. *)
Definition is_const_v (T : qtype) : bool :=
  match q_ref (q_quals T) with
  | no_ref => q_const (q_quals T)
  | _ => false
  end.

(** [Object&&] after reference collapsing. *)
Definition add_rvalue_reference_t (T : qtype) : qtype :=
  match q_ref (q_quals T) with
  | no_ref =>
      {| q_base := q_base T;
         q_quals := {| q_const := q_const (q_quals T);
                       q_volatile := q_volatile (q_quals T);
                       q_ref := rvalue_ref |} |}
  | _ => T
  end.

(** ** Instances *)

(** An object of a fundamental type carries a payload; an object of a class
    carries one sub-object per data member, under the member's name. *)
Unset Elimination Schemes.
Inductive value : Type :=
| Scalar (payload : Z)
| Object (fields : list (string * value)).
Set Elimination Schemes.

Fixpoint lookup {A} (name : string) (l : list (string * A)) : option A :=
  match l with
  | [] => None
  | (n, a) :: rest => if String.eqb n name then Some a else lookup name rest
  end.

(** The specialisation generated for a given index, if any. *)
Fixpoint lookup_index {A} (N : nat) (l : list (nat * A)) : option A :=
  match l with
  | [] => None
  | (i, a) :: rest => if Nat.eqb i N then Some a else lookup_index N rest
  end.

(** [x.dataMember] *)
Definition member_access (x : value) (dataMember : string) : option value :=
  match x with
  | Object fields => lookup dataMember fields
  | Scalar _ => None
  end.

(** [instance_of t x]: [x] is an object of type [t] (same members, in the
    same order, each an object of the member's type). *)
Fixpoint instance_of (t : ty) (x : value) {struct t} : bool :=
  match t, x with
  | Fundamental _, Scalar _ => true
  | Class _ members _, Object fields =>
      (fix each (ms : list (string * ty)) (fs : list (string * value)) : bool :=
         match ms, fs with
         | [], [] => true
         | (n, t') :: ms', (n', x') :: fs' =>
             String.eqb n n' && instance_of t' x' && each ms' fs'
         | _, _ => false
         end) members fields
  | _, _ => false
  end.

(** ** The declaration macro *)

(** What [REFLECTABLE(...)] adds to the class: the static constant and the
    partial specialisations of [FieldData], each recorded by its [index]
    and the [dataMember] it was generated for. *)
Record reflection_members : Type := {
  _reflection_fields_n : Z;
  FieldData_specializations : list (nat * string)
}.

(** [REFLECT_EACH(dataMember, index)] writes [dataMember] after [::] and
    after [self.]; with an empty argument neither is an expression. *)
Definition REFLECT_EACH (dataMember : string) (index : nat) : result (nat * string) :=
  match dataMember with
  | EmptyString => Rejected (ill_formed "expected a member name")
  | _ => Ok (index, dataMember)
  end.

Fixpoint all_ok {A} (l : list (result A)) : result (list A) :=
  match l with
  | [] => Ok []
  | r :: rest => a <- r ;; more <- all_ok rest ;; Ok (a :: more)
  end.

Definition REFLECTABLE (va : list string) : result reflection_members :=
  (* static int constexpr _reflection_fields_n = COUNT_ARGS(__VA_ARGS__); *)
  n <- match Preprocessor.COUNT_ARGS va with
       | Some (inr n) => Ok n
       | Some (inl _) | None =>
           Rejected (ill_formed "initializer of _reflection_fields_n is not a constant")
       end ;;
  (* static_assert(_reflection_fields_n < 32, ...); *)
  _ <- static_assert (n <? 32) "Reflection does not support more than 32 data members." ;;
  (* APPLY_MACRO_TO_EACH(REFLECT_EACH, __VA_ARGS__) *)
  specializations <- match Preprocessor.APPLY_MACRO_TO_EACH REFLECT_EACH va with
                     | Some generated => all_ok generated
                     | None => Rejected (ill_formed "APPLY_MACRO_TO_EACH does not expand")
                     end ;;
  Ok {| _reflection_fields_n := n; FieldData_specializations := specializations |}.

(** The members the macro gave a class, for the code that names them. *)
Definition static_members (c : ty) : result reflection_members :=
  match c with
  | Class _ _ (Some va) => REFLECTABLE va
  | _ => Rejected (ill_formed "no member named _reflection_fields_n")
  end.

(** ** Field descriptors *)

Inductive access : Type := read_only | mutable.

(** A member sub-object of the instance a descriptor is bound to. *)
Record subobject : Type := { so_member : string; so_value : value }.

Record reference : Type := { ref_access : access; ref_to : subobject }.

Record pointer_to_member : Type := { ptm_class : ty; ptm_member : string }.

(** [FieldData<index, Object>], bound to [self]. *)
Record FieldData : Type := {
  fd_index : nat;
  fd_Object : qtype;
  fd_dataMember : string;
  fd_self : value
}.

(** [decltype(C::dataMember)], handed to [found]: written as a local search
    so that the type handed on is visibly a part of [c]. *)
Definition with_member_type {R} (c : ty) (dataMember : string)
           (found : ty -> R) (missing : R) : R :=
  match c with
  | Class _ members _ =>
      (fix find (ms : list (string * ty)) : R :=
         match ms with
         | [] => missing
         | (n, t) :: ms' => if String.eqb n dataMember then found t else find ms'
         end) members
  | Fundamental _ => missing
  end.

Definition member_type (c : ty) (dataMember : string) : result ty :=
  with_member_type c dataMember Ok (Rejected (ill_formed "no such member")).

(** [using type = std::remove_cvref_t<decltype(std::decay_t<Object>::dataMember)>]
    (data members are modelled without qualifiers of their own). *)
Definition FieldData_type (fd : FieldData) : result ty :=
  t <- member_type (q_base (decay_t (fd_Object fd))) (fd_dataMember fd) ;;
  Ok (q_base (remove_cvref_t (plain t))).

(** Binding a reference of the given access (and not to volatile) to an
    expression: no reference here binds to a volatile expression, and a
    mutable one does not bind to a const expression. *)
Definition bind_reference (declared : access)
           (expression_is_const expression_is_volatile : bool)
           (target : subobject) : result reference :=
  if expression_is_volatile
  then Rejected (ill_formed "binding a reference discards volatile")
  else match declared, expression_is_const with
       | mutable, true => Rejected (ill_formed "binding a reference discards const")
       | _, _ => Ok {| ref_access := declared; ref_to := target |}
       end.

(** The two overloads of [get()], selected by their [requires] clauses; both
    return [self.dataMember], which is const (volatile) exactly when the
    object [self] refers to is.  The data members are of object type, as
    everywhere in this model: for a member declared as a reference,
    [decltype(...) const&] would be that reference type itself. *)
Definition get (fd : FieldData) : result reference :=
  match member_access (fd_self fd) (fd_dataMember fd) with
  | None => Rejected (ill_formed "no such member")
  | Some v =>
      let self_dataMember := {| so_member := fd_dataMember fd; so_value := v |} in
      let self_is_const := q_const (q_quals (fd_Object fd)) in
      let self_is_volatile := q_volatile (q_quals (fd_Object fd)) in
      if is_const_v (fd_Object fd)
      then (* decltype(...)& get() const requires(std::is_const_v<Object>) *)
        bind_reference mutable self_is_const self_is_volatile self_dataMember
      else (* decltype(...) const& get() const requires(!std::is_const_v<Object>) *)
        bind_reference read_only self_is_const self_is_volatile self_dataMember
  end.

(** [#dataMember] *)
Definition name (fd : FieldData) : string := fd_dataMember fd.

(** [&std::decay_t<Object>::dataMember] *)
Definition getPointerToMember (fd : FieldData) : pointer_to_member :=
  {| ptm_class := q_base (decay_t (fd_Object fd)); ptm_member := fd_dataMember fd |}.

(** [x.*p] *)
Definition pointer_to_member_access (x : value) (p : pointer_to_member) : option subobject :=
  option_map (fun v => {| so_member := ptm_member p; so_value := v |})
             (member_access x (ptm_member p)).

(** Assignment through a reference into the instance it refers into. *)
Fixpoint update {A} (name : string) (a : A) (l : list (string * A)) : list (string * A) :=
  match l with
  | [] => []
  | (n, old) :: rest =>
      if String.eqb n name then (n, a) :: rest else (n, old) :: update name a rest
  end.

Definition assign_through (r : reference) (new : value) (instance : value) : result value :=
  match ref_access r, instance with
  | read_only, _ => Rejected (ill_formed "assignment of read-only location")
  | mutable, Object fields => Ok (Object (update (so_member (ref_to r)) new fields))
  | mutable, Scalar _ => Rejected (ill_formed "no such member")
  end.

(** ** The capability query *)

Module query.

(** [requires { std::remove_cvref_t<T>::_reflection_fields_n; }]: the name
    is declared exactly by the macro. *)
Definition reflectable (T : qtype) : bool :=
  match q_base (remove_cvref_t T) with
  | Class _ _ (Some _) => true
  | _ => false
  end.

Definition getNumberOfFields (T : qtype) : result Z :=
  m <- static_members (q_base (remove_cvref_t T)) ;;
  Ok (_reflection_fields_n m).

(** [typename std::remove_cvref_t<T>::template FieldData<N, T>(std::forward<T>(object))].
    The primary template [FieldData] is an empty struct and cannot be
    built from an object; a specialisation's member declarations name
    [decltype(...::dataMember)]; its constructor initialises the member
    [Object&& self] from the parameter [self], an lvalue, to which only an
    lvalue reference binds. *)
Definition getFieldData (N : nat) (T : qtype) (object : value) : result FieldData :=
  m <- static_members (q_base (remove_cvref_t T)) ;;
  dataMember <- match lookup_index N (FieldData_specializations m) with
                | Some dataMember => Ok dataMember
                | None => Rejected (ill_formed "FieldData<N, T> is the empty primary template")
                end ;;
  _ <- member_type (q_base (decay_t T)) dataMember ;;
  _ <- match q_ref (q_quals (add_rvalue_reference_t T)) with
       | lvalue_ref => Ok tt
       | _ => Rejected (ill_formed "cannot bind an rvalue reference to an lvalue")
       end ;;
  Ok {| fd_index := N; fd_Object := T; fd_dataMember := dataMember; fd_self := object |}.

End query.

Definition isReflectable (T : qtype) : bool := query.reflectable T.

Definition getNumberOfFields (T : qtype) : result Z := query.getNumberOfFields T.

(** ** The traversal engine *)

Definition not_reflectable_message : string :=
  "Class provided is not reflectable! Did you forget to provide the REFLECTABLE macro?".

(** [std::make_integer_sequence<std::size_t, n>] *)
Definition make_integer_sequence (n : Z) : result (list nat) :=
  if n <? 0
  then Rejected (ill_formed "negative length of an integer sequence")
  else Ok (seq 0 (Z.to_nat n)).

(** The deduced [T] of a forwarding reference [T&&] bound to what [get()]
    returned (an lvalue, const when the reference is read-only). *)
Definition deduce_from_reference (r : reference) : qualifiers :=
  {| q_const := match ref_access r with read_only => true | mutable => false end;
     q_volatile := false;
     q_ref := lvalue_ref |}.

Definition _internal_visit_not_declared : diagnostic :=
  ill_formed "_internal_visit was not declared in this scope".

Section Traversal.

(** The callbacks act on a state of their own choosing; instantiating the
    leaf callback's template for a descriptor can fail. *)
Context {S : Type}.
Variable func : FieldData -> S -> result S.
Variables enterFunc exitFunc : S -> S.

(** The fold expression [(callback(query::getFieldData<ints>(x)), ...)]. *)
Fixpoint forEach (T : qtype) (x : value) (callback : FieldData -> S -> result S)
         (ints : list nat) (s : S) : result S :=
  match ints with
  | [] => Ok s
  | N :: rest =>
      fieldData <- query.getFieldData N T x ;;
      s' <- callback fieldData s ;;
      forEach T x callback rest s'
  end.

Definition iterateThroughMember (T : qtype) (x : value)
           (func : FieldData -> S -> result S) (s : S) : result S :=
  n <- query.getNumberOfFields T ;;
  ints <- make_integer_sequence n ;;
  forEach T x func ints s.

(** The generic lambda both [visit] and [_internal_visit] pass to
    [iterateThroughMember]; [c] is the class of the object being iterated
    (the descriptor's [decay_t<Object>]) and [recurse] is
    [_internal_visit]. *)
Definition field_lambda (recurse : ty -> qualifiers -> value -> S -> result S)
           (c : ty) (fieldData : FieldData) (s : S) : result S :=
  with_member_type c (fd_dataMember fieldData)
    (fun type =>
       if isReflectable (plain type)
       then r <- get fieldData ;;
            recurse type (deduce_from_reference r) (so_value (ref_to r)) s
       else func fieldData s)
    (Rejected (ill_formed "no such member")).

Fixpoint _internal_visit (c : ty) (q : qualifiers) (x : value) (s : S)
         {struct c} : result S :=
  let s := enterFunc s in
  s <- iterateThroughMember {| q_base := c; q_quals := q |} x
         (field_lambda _internal_visit c) s ;;
  Ok (exitFunc s).

(** The call [_internal_visit(...)] in the lambda of [visit] stands before
    the declaration of [_internal_visit], and the header declares the name
    nowhere earlier.  The call depends on a template parameter, so the name
    is looked up when the branch is instantiated, that is for a composite
    field, and then only by argument-dependent lookup: it is found when
    namespace [reflection] is associated with the type of an argument of
    the call, which are the three callbacks and what [get()] returned.
    [associated type] says whether it is, for the member class [type].
    (Inside [_internal_visit] the name is declared, and found.) *)
Definition lookup__internal_visit (associated : ty -> bool)
           (type : ty) (q : qualifiers) (x : value) (s : S) : result S :=
  if associated type
  then _internal_visit type q x s
  else Rejected _internal_visit_not_declared.

(** [visit(func, enterFunc, exitFunc, x)] *)
Definition visit_with_hooks_by_lookup (associated : ty -> bool)
           (T : qtype) (x : value) (s : S) : result S :=
  _ <- static_assert (isReflectable T) not_reflectable_message ;;
  iterateThroughMember T x
    (field_lambda (lookup__internal_visit associated) (q_base T)) s.

(** [visit(func, enterFunc, exitFunc, x)] where a callback is a lambda
    written in namespace [reflection], as the hooks of [visit(func, x)] and
    the callbacks of [print] and [prettyPrint] are: the lookup of
    [_internal_visit] then succeeds for every member. *)
Definition visit_with_hooks (T : qtype) (x : value) (s : S) : result S :=
  _ <- static_assert (isReflectable T) not_reflectable_message ;;
  iterateThroughMember T x (field_lambda _internal_visit (q_base T)) s.

End Traversal.

(** [visit(func, x)]: the hooks are the empty lambdas, written in namespace
    [reflection]. *)
Definition visit {S} (func : FieldData -> S -> result S) (T : qtype) (x : value)
           (s : S) : result S :=
  visit_with_hooks func (fun s => s) (fun s => s) T x s.

(** ** print and prettyPrint *)

Definition newline : string := String (ascii_of_nat 10) EmptyString.

(** [for (int i = 0; i < bound; ++i) std::cout << "    ";] *)
Definition indent (bound : Z) (cout : string) : string :=
  Nat.iter (Z.to_nat bound) (fun cout => (cout ++ "    ")%string) cout.

Definition print (T : qtype) (x : value) : result unit :=
  _ <- static_assert (isReflectable T) not_reflectable_message ;;
  visit (fun fieldData s => Ok s) T x tt.

Section PrettyPrint.

(** [operator<<] of the data members, which the header assumes. *)
Variable stream : value -> string.

(** The state the three lambdas share: [recursionDepth] and what has been
    written to [std::cout].  [recursionDepth] is an [int] that counts the
    blocks open at the moment, at most the nesting depth of the class, and
    is modelled by an integer without bound. *)
Definition pp_state : Type := (Z * string)%type.

Definition prettyPrint_leaf (fieldData : FieldData) (s : pp_state) : result pp_state :=
  let '(recursionDepth, cout) := s in
  let cout := indent (recursionDepth + 1) cout in
  r <- get fieldData ;;
  Ok (recursionDepth,
      (cout ++ name fieldData ++ " = " ++ stream (so_value (ref_to r)) ++ "," ++ newline)%string).

Definition prettyPrint_enter (s : pp_state) : pp_state :=
  let '(recursionDepth, cout) := s in
  let recursionDepth := recursionDepth + 1 in
  let cout := indent recursionDepth cout in
  (recursionDepth, (cout ++ "{" ++ newline)%string).

Definition prettyPrint_exit (s : pp_state) : pp_state :=
  let '(recursionDepth, cout) := s in
  let cout := indent recursionDepth cout in
  let cout := (cout ++ "}," ++ newline)%string in
  (recursionDepth - 1, cout).

Definition prettyPrint (T : qtype) (x : value) (cout : string) : result string :=
  _ <- static_assert (isReflectable T) not_reflectable_message ;;
  let recursionDepth := 0 in
  let cout := (cout ++ "{" ++ newline)%string in
  s <- visit_with_hooks prettyPrint_leaf prettyPrint_enter prettyPrint_exit T x
         (recursionDepth, cout) ;;
  Ok (snd s ++ "}" ++ newline)%string.

End PrettyPrint.

(** ** The classes of main.cpp and of the scenarios *)

Module Examples.

Local Open Scope string_scope.

Definition float : ty := Fundamental "float".
Definition int : ty := Fundamental "int".

Definition Point : ty :=
  Class "Point" [("x", float); ("y", float)] (Some ["x"; "y"]).

Definition Data : ty :=
  Class "Data"
        [("foo", Fundamental "std::string");
         ("bar", Fundamental "std::vector<int>");
         ("baz", Fundamental "std::unordered_set<float>")]
        (Some ["foo"; "baz"]).

Definition Points : ty :=
  Class "Points" [("pt1", Point); ("pt2", Point); ("pt3", Point)]
        (Some ["pt1"; "pt2"; "pt3"]).

Definition ManyPoints : ty :=
  Class "ManyPoints"
        [("points1", Points); ("pt", Point); ("x", int); ("y", int); ("points2", Points)]
        (Some ["points1"; "pt"; "x"; "y"; "points2"]).

Definition point (x y : Z) : value := Object [("x", Scalar x); ("y", Scalar y)].
Definition points (a b c : value) : value := Object [("pt1", a); ("pt2", b); ("pt3", c)].

Definition manyPts : value :=
  Object [("points1", points (point 6 5) (point 4 3) (point 2 1));
          ("pt", point 5 5);
          ("x", Scalar 10);
          ("y", Scalar 20);
          ("points2", points (point (-16) (-15)) (point (-14) (-13)) (point (-12) (-11)))].

(** The scenario of the hook protocol: [R1] has a scalar [a] and a
    composite [b] of type [R2], which has the scalars [c] and [d]. *)
Definition R2 : ty := Class "R2" [("c", int); ("d", int)] (Some ["c"; "d"]).
Definition R1 : ty := Class "R1" [("a", int); ("b", R2)] (Some ["a"; "b"]).
Definition r1 : value :=
  Object [("a", Scalar 1); ("b", Object [("c", Scalar 2); ("d", Scalar 3)])].

(** A class with [k] data members [m0 ... m(k-1)], all of them listed. *)
Definition member_names (k : nat) : list string :=
  map (fun i => "m" ++ NilZero.string_of_uint (Nat.to_uint i)) (seq 0 k).
Definition Wide (k : nat) : ty :=
  Class "Wide" (map (fun n => (n, int)) (member_names k)) (Some (member_names k)).
Definition wide (k : nat) : value :=
  Object (map (fun n => (n, Scalar 0)) (member_names k)).

(** A class that invokes [REFLECTABLE()] with nothing listed. *)
Definition Empty : ty := Class "Empty" [("hidden", int)] (Some []).
Definition empty : value := Object [("hidden", Scalar 0)].

(** A class without the macro. *)
Definition Opaque : ty := Class "Opaque" [("x", int)] None.


(** A stand-in for [operator<<]: the payload in decimal. *)
Definition show (v : value) : string :=
  match v with
  | Scalar z => NilZero.string_of_int (Z.to_int z)
  | Object _ => "?"
  end.

End Examples.


(** ** Programs that compile *)

(** The instance is passed as an lvalue of a type that is not volatile: [T]
    is deduced as [C&] or [const C&]. *)
Definition lvalue_object (q : qualifiers) : bool :=
  match q_ref q with
  | lvalue_ref => negb (q_volatile q)
  | _ => false
  end.

(** The names of [va] under the indices 0, 1, ... *)
Definition enumerate (va : list string) : list (nat * string) :=
  combine (seq 0 (length va)) va.

Definition is_some {A} (o : option A) : bool :=
  match o with Some _ => true | None => false end.

(** [well_declared t]: in [t] and in the classes of its data members, every
    invocation of [REFLECTABLE] expands without a diagnostic and lists data
    members of its own class. *)
Fixpoint well_declared (t : ty) : bool :=
  match t with
  | Fundamental _ => true
  | Class _ members args =>
      match args with
      | Some va =>
          is_ok (REFLECTABLE va) && forallb (fun n => is_some (lookup n members)) va
      | None => true
      end
      && forallb (fun m => well_declared (snd m)) members
  end.

(** ** The traversal as the specification words it *)

Inductive event : Type :=
| leaf (fieldData : FieldData)
| enter
| exit.

(** Ordinal [N] of the instance [x]: its descriptor; a composite field is
    replaced by [enter], the events of its value, [exit]; a leaf field is
    one [leaf] event. *)
Definition spec_field (recurse : ty -> qualifiers -> value -> list event)
           (c : ty) (q : qualifiers) (x : value) (N : nat) : list event :=
  match query.getFieldData N {| q_base := c; q_quals := q |} x with
  | Ok d =>
      with_member_type c (fd_dataMember d)
        (fun type =>
           if isReflectable (plain type)
           then match get d with
                | Ok r =>
                    enter :: recurse type (deduce_from_reference r) (so_value (ref_to r))
                          ++ [exit]
                | Rejected _ => []
                end
           else [leaf d])
        []
  | Rejected _ => []
  end.

(** The ordinals 0 .. fieldCount - 1 in ascending order. *)
Fixpoint spec_events (c : ty) (q : qualifiers) (x : value) {struct c} : list event :=
  match getNumberOfFields {| q_base := c; q_quals := q |} with
  | Ok n => flat_map (spec_field spec_events c q x) (seq 0 (Z.to_nat n))
  | Rejected _ => []
  end.

(** The leaves reachable after fully expanding the composite fields, in
    declared order, depth-first. *)
Definition spec_field_leaves (recurse : ty -> qualifiers -> value -> list FieldData)
           (c : ty) (q : qualifiers) (x : value) (N : nat) : list FieldData :=
  match query.getFieldData N {| q_base := c; q_quals := q |} x with
  | Ok d =>
      with_member_type c (fd_dataMember d)
        (fun type =>
           if isReflectable (plain type)
           then match get d with
                | Ok r => recurse type (deduce_from_reference r) (so_value (ref_to r))
                | Rejected _ => []
                end
           else [d])
        []
  | Rejected _ => []
  end.

Fixpoint spec_leaves (c : ty) (q : qualifiers) (x : value) {struct c} : list FieldData :=
  match getNumberOfFields {| q_base := c; q_quals := q |} with
  | Ok n => flat_map (spec_field_leaves spec_leaves c q x) (seq 0 (Z.to_nat n))
  | Rejected _ => []
  end.

(** The same leaves told from the class alone: the paths of member names
    that lead from the instance to a leaf, composite fields expanded, in
    declared order, depth-first. *)
Fixpoint leaf_paths (c : ty) {struct c} : list (list string) :=
  match c with
  | Class _ _ (Some va) =>
      flat_map (fun dataMember =>
                  with_member_type c dataMember
                    (fun type =>
                       if isReflectable (plain type)
                       then map (cons dataMember) (leaf_paths type)
                       else [[dataMember]])
                    [])
               va
  | _ => []
  end.

(** The sub-object of [x] a path leads to. *)
Fixpoint value_at (x : value) (path : list string) : option value :=
  match path with
  | [] => Some x
  | dataMember :: rest =>
      match member_access x dataMember with
      | Some v => value_at v rest
      | None => None
      end
  end.

(** What a callback can see of a descriptor: its [name()] and the value its
    [get()] refers to. *)
Definition observe (d : FieldData) : string * option value :=
  (name d,
   match get d with
   | Ok r => Some (so_value (ref_to r))
   | Rejected _ => None
   end).

Definition observe_path (x : value) (path : list string) : string * option value :=
  (last path EmptyString, value_at x path).

Section Run.

Context {S : Type}.
Variable func : FieldData -> S -> result S.
Variables enterFunc exitFunc : S -> S.

(** The callbacks called in the order of a list of events. *)
Fixpoint run (events : list event) (s : S) : result S :=
  match events with
  | [] => Ok s
  | leaf d :: rest => s' <- func d s ;; run rest s'
  | enter :: rest => run rest (enterFunc s)
  | exit :: rest => run rest (exitFunc s)
  end.

Fixpoint run_leaves (leaves : list FieldData) (s : S) : result S :=
  match leaves with
  | [] => Ok s
  | d :: rest => s' <- func d s ;; run_leaves rest s'
  end.

End Run.

(** Callbacks that write down their own calls. *)
Definition log_leaf (d : FieldData) (log : list event) : result (list event) :=
  Ok (log ++ [leaf d]).
Definition log_enter (log : list event) : list event := log ++ [enter].
Definition log_exit (log : list event) : list event := log ++ [exit].

(** Strict stack discipline of the hooks: a trace is a sequence of leaves
    and of blocks, a block being [enter], a trace, [exit]. *)
Inductive nested : list event -> Prop :=
| nested_nil : nested []
| nested_leaf (d : FieldData) (rest : list event) :
    nested rest -> nested (leaf d :: rest)
| nested_block (inner rest : list event) :
    nested inner -> nested rest -> nested (enter :: inner ++ exit :: rest).

(** No listed member of the class is of a reflectable type. *)
Definition all_fields_are_leaves (c : ty) : bool :=
  match c with
  | Class _ members (Some va) =>
      forallb (fun dataMember =>
                 match lookup dataMember members with
                 | Some type => negb (isReflectable (plain type))
                 | None => true
                 end) va
  | _ => true
  end.

(** A descriptor whose [get()] is a read-only reference to the member it
    names. *)
Definition readable (d : FieldData) : Prop :=
  exists v, get d = Ok {| ref_access := read_only;
                          ref_to := {| so_member := name d; so_value := v |} |}.

(** The leaf descriptors of a trace, in its order. *)
Fixpoint leaves_of (events : list event) : list FieldData :=
  match events with
  | [] => []
  | leaf d :: rest => d :: leaves_of rest
  | _ :: rest => leaves_of rest
  end.

(** ** The layout of prettyPrint's output *)

Fixpoint spaces (width : nat) : string :=
  match width with
  | O => EmptyString
  | Datatypes.S w => String " " (spaces w)
  end.

(** The fixed unit is the four spaces of the header's loops. *)
Definition width_of (units : Z) : nat := Z.to_nat units * 4.

(** [recursionDepth] after the hooks of a trace. *)
Fixpoint depth_after (depth : Z) (events : list event) : Z :=
  match events with
  | [] => depth
  | leaf _ :: rest => depth_after depth rest
  | enter :: rest => depth_after (depth + 1) rest
  | exit :: rest => depth_after (depth - 1) rest
  end.

Section PrettyPrintLayout.

Variable stream : value -> string.

(** What a leaf line reads after its indentation. *)
Definition leaf_text (d : FieldData) : string :=
  match get d with
  | Ok r => (name d ++ " = " ++ stream (so_value (ref_to r)) ++ ",")%string
  | Rejected _ => EmptyString
  end.

(** The text written for a trace that starts at [recursionDepth = depth]:
    a leaf line one unit deeper than [depth]; [{] one unit deeper and the
    depth raised; [},] at the depth reached and the depth lowered. *)
Fixpoint pp_render (depth : Z) (events : list event) : string :=
  match events with
  | [] => EmptyString
  | leaf d :: rest =>
      (spaces (width_of (depth + 1)) ++ leaf_text d ++ newline
       ++ pp_render depth rest)%string
  | enter :: rest =>
      (spaces (width_of (depth + 1)) ++ "{" ++ newline
       ++ pp_render (depth + 1) rest)%string
  | exit :: rest =>
      (spaces (width_of depth) ++ "}," ++ newline
       ++ pp_render (depth - 1) rest)%string
  end.

(** One entry per call of prettyPrint's leaf lambda: the value of
    [recursionDepth] at the call, the descriptor, and what the call
    writes. *)
Definition leaf_line : Type := (Z * FieldData * string)%type.

Definition logged_leaf (d : FieldData) (sl : pp_state * list leaf_line) :
  result (pp_state * list leaf_line) :=
  s' <- prettyPrint_leaf stream d (fst sl) ;;
  written <- prettyPrint_leaf stream d (fst (fst sl), EmptyString) ;;
  Ok (s', snd sl ++ [(fst (fst sl), d, snd written)]).

Definition logged_enter (sl : pp_state * list leaf_line) : pp_state * list leaf_line :=
  (prettyPrint_enter (fst sl), snd sl).

Definition logged_exit (sl : pp_state * list leaf_line) : pp_state * list leaf_line :=
  (prettyPrint_exit (fst sl), snd sl).

(** prettyPrint run with its leaf lambda logged. *)
Definition prettyPrint_leaf_lines (T : qtype) (x : value) : result (list leaf_line) :=
  _ <- static_assert (isReflectable T) not_reflectable_message ;;
  sl <- visit_with_hooks logged_leaf logged_enter logged_exit T x
          ((0, ("{" ++ newline)%string), []) ;;
  Ok (snd sl).

(** The line [name = value,] of [d], [width] spaces in. *)
Definition leaf_line_at (width : nat) (d : FieldData) (text : string) : Prop :=
  exists r,
    get d = Ok r
    /\ text = (spaces width ++ name d ++ " = " ++ stream (so_value (ref_to r))
               ++ "," ++ newline)%string.

(** The layout as the specification words it: with some fixed unit, each
    leaf line is [depth] units in. *)
Definition leaf_lines_at_depth_units (lines : list leaf_line) : Prop :=
  exists unit : nat,
    Forall (fun l => leaf_line_at (Z.to_nat (fst (fst l)) * unit) (snd (fst l)) (snd l))
           lines.

End PrettyPrintLayout.

(** ** What translation decides *)









(** ** Calls, nesting and top-level descriptors *)

(** Which callback is called, and for which member name. *)
Inductive call : Type :=
| call_leaf (dataMember : string)
| call_enter
| call_exit.

Definition call_of (e : event) : call :=
  match e with
  | leaf d => call_leaf (name d)
  | enter => call_enter
  | exit => call_exit
  end.

(** The calls told from the class alone. *)
Fixpoint type_calls (c : ty) {struct c} : list call :=
  match c with
  | Class _ _ (Some va) =>
      flat_map (fun dataMember =>
                  with_member_type c dataMember
                    (fun type =>
                       if isReflectable (plain type)
                       then call_enter :: type_calls type ++ [call_exit]
                       else [call_leaf dataMember])
                    [])
               va
  | _ => []
  end.

(** Callbacks that write down which of them was called. *)
Definition log_call_leaf (d : FieldData) (log : list call) : result (list call) :=
  Ok (log ++ [call_leaf (name d)]).
Definition log_call_enter (log : list call) : list call := log ++ [call_enter].
Definition log_call_exit (log : list call) : list call := log ++ [call_exit].

(** How deep reflectable classes are nested in a class by its listed
    members: 0 for a type that is not reflectable, 1 for a class that lists
    leaves only. *)
Fixpoint nesting (c : ty) {struct c} : nat :=
  match c with
  | Class _ _ (Some va) =>
      Datatypes.S
        (list_max (map (fun dataMember =>
                          with_member_type c dataMember (fun type => nesting type) 0%nat)
                       va))
  | _ => 0%nat
  end.

(** [recursionDepth] at each leaf call of a trace. *)
Fixpoint leaf_depths (depth : Z) (events : list event) : list Z :=
  match events with
  | [] => []
  | leaf _ :: rest => depth :: leaf_depths depth rest
  | enter :: rest => leaf_depths (depth + 1) rest
  | exit :: rest => leaf_depths (depth - 1) rest
  end.


(** The descriptors of the listed members of one object, composite members
    included, in listing order. *)
Definition top_descriptors (T : qtype) (va : list string) (x : value) : list FieldData :=
  map (fun p => {| fd_index := fst p; fd_Object := T;
                   fd_dataMember := snd p; fd_self := x |})
      (enumerate va).

(** What prettyPrint writes between the outer braces, told from the class
    and the instance: one line per leaf member, one block per composite
    member, in listing order. *)
Fixpoint pp_members (stream : value -> string) (c : ty) (x : value) (depth : Z)
         {struct c} : string :=
  match c with
  | Class _ _ (Some va) =>
      fold_right
        (fun dataMember rest =>
           (with_member_type c dataMember
              (fun type =>
                 match member_access x dataMember with
                 | Some v =>
                     if isReflectable (plain type)
                     then (spaces (width_of (depth + 1)) ++ "{" ++ newline
                           ++ pp_members stream type v (depth + 1)
                           ++ spaces (width_of (depth + 1)) ++ "}," ++ newline)%string
                     else (spaces (width_of (depth + 1)) ++ dataMember ++ " = "
                           ++ stream v ++ "," ++ newline)%string
                 | None => EmptyString
                 end)
              EmptyString
            ++ rest)%string)
        EmptyString va
  | _ => EmptyString
  end.

(** A state of two parts, the leaf callback acting on the first and the
    hooks on the second. *)
Definition on_first {A B} (func : FieldData -> A -> result A) (d : FieldData)
           (s : A * B) : result (A * B) :=
  a <- func d (fst s) ;; Ok (a, snd s).

Definition on_second {A B} (hook : B -> B) (s : A * B) : A * B :=
  (fst s, hook (snd s)).

(** Every listed member of the class that is composite is one for which
    the lambda of [visit] finds [_internal_visit]. *)
Definition lookup_succeeds (associated : ty -> bool) (c : ty) : bool :=
  match c with
  | Class _ members (Some va) =>
      forallb (fun dataMember =>
                 match lookup dataMember members with
                 | Some type => negb (isReflectable (plain type)) || associated type
                 | None => true
                 end) va
  | _ => true
  end.

(** Callbacks written outside namespace [reflection], on classes declared
    outside of it. *)
Definition of_the_caller (type : ty) : bool := false.

(** Callbacks one of which is written in namespace [reflection]. *)
Definition of_the_header (type : ty) : bool := true.

(** * Properties *)

(** ** The error monad *)

Lemma bind_Ok_inv {A B} (r : result A) (k : A -> result B) (b : B) :
  bind r k = Ok b -> exists a, r = Ok a /\ k a = Ok b.
Proof.
  destruct r as [a|d]; simpl; intros H; [eauto | discriminate].
Qed.

Lemma static_assert_Ok_inv (c : bool) (msg : string) (u : unit) :
  static_assert c msg = Ok u -> c = true.
Proof.
  destruct c; simpl; [reflexivity | discriminate].
Qed.

Ltac inv_bind H :=
  let a := fresh "a" in
  let Ha := fresh "Ha" in
  apply bind_Ok_inv in H; destruct H as [a [Ha H]].

(** ** What the macros compute *)

Module PreprocessorFacts.
Import Preprocessor.

Lemma splice_nonempty {A} (empty : A) (va more : list A) :
  va <> [] -> splice empty va more = va ++ more.
Proof.
  destruct va; [congruence | reflexivity].
Qed.

(** The 33rd argument when at most 32 were written: the literal standing
    [32 - length va] places into the appended list. *)
Lemma nth_32_of_spliced {A B} (va : list A) (more : list B) (empty : A) :
  (1 <= length va <= 32)%nat ->
  nth_error (splice (inl empty) (map inl va) (map inr more)) 32
  = option_map (@inr A B) (nth_error more (32 - length va)).
Proof.
  intros H.
  rewrite splice_nonempty by (destruct va; simpl in *; [lia | discriminate]).
  rewrite nth_error_app2 by (rewrite length_map; lia).
  rewrite length_map. apply nth_error_map.
Qed.

Lemma nth_32_of_overflow {A B} (va : list A) (more : list B) (empty : A) :
  (33 <= length va)%nat ->
  nth_error (splice (inl empty) (map inl va) (map inr more)) 32
  = option_map (@inl A B) (nth_error va 32).
Proof.
  intros H.
  rewrite splice_nonempty by (destruct va; simpl in *; [lia | discriminate]).
  rewrite nth_error_app1 by (rewrite length_map; lia).
  apply nth_error_map.
Qed.

Lemma COUNT_ARGS_counts (va : list string) :
  (1 <= length va <= 32)%nat ->
  COUNT_ARGS va = Some (inr (Z.of_nat (length va))).
Proof.
  intros H. unfold COUNT_ARGS, COUNT_ARGS_IMPL.
  rewrite nth_32_of_spliced by assumption.
  remember (length va) as k eqn:Hk. clear Hk va.
  do 33 (destruct k as [|k]; [simpl in H; try lia; reflexivity|]).
  lia.
Qed.

Lemma COUNT_ARGS_overflow (va : list string) :
  (33 <= length va)%nat ->
  COUNT_ARGS va = option_map inl (nth_error va 32).
Proof.
  intros H. unfold COUNT_ARGS, COUNT_ARGS_IMPL.
  apply nth_32_of_overflow. assumption.
Qed.

Lemma GET_MACRO_selects (va : list string) :
  (1 <= length va <= 32)%nat ->
  GET_MACRO
    (splice (inl EmptyString) (map inl va)
       (map inr [32; 31; 30; 29; 28; 27; 26; 25; 24; 23; 22; 21; 20; 19;
                 18; 17; 16; 15; 14; 13; 12; 11; 10; 9; 8; 7; 6; 5; 4;
                 3; 2; 1]%nat))
  = Some (@inr string nat (length va)).
Proof.
  intros H. unfold GET_MACRO.
  rewrite nth_32_of_spliced by assumption.
  remember (length va) as k eqn:Hk. clear Hk va.
  do 33 (destruct k as [|k]; [simpl in H; try lia; reflexivity|]).
  lia.
Qed.

(** Within the arities the header defines, a macro of the chain expands
    as written; there is no macro of a larger arity. *)
Lemma APPLY_MACRO_TO_EACH_step {B} (macro : string -> nat -> B) :
  forall (k index : nat) (args : list string),
    (k <= 32)%nat ->
    APPLY_MACRO_TO_EACH_ k macro index args
    = match k, args with
      | 1%nat, [a] => Some [macro a index]
      | S k', a :: rest =>
          option_map (cons (macro a index))
                     (APPLY_MACRO_TO_EACH_ k' macro (index + 1)%nat rest)
      | _, _ => None
      end.
Proof.
  intros k index args Hk.
  destruct k as [|k]; [reflexivity|].
  cbn [APPLY_MACRO_TO_EACH_].
  replace (32 <? S k)%nat with false by (symmetry; apply Nat.ltb_ge; lia).
  reflexivity.
Qed.

Lemma APPLY_MACRO_TO_EACH_undefined {B} (macro : string -> nat -> B) :
  forall (k index : nat) (args : list string),
    (32 < k)%nat -> APPLY_MACRO_TO_EACH_ k macro index args = None.
Proof.
  intros k index args Hk.
  destruct k as [|k]; [lia|].
  cbn [APPLY_MACRO_TO_EACH_].
  replace (32 <? S k)%nat with true by (symmetry; apply Nat.ltb_lt; lia).
  reflexivity.
Qed.

(** The chain of [APPLY_MACRO_TO_EACH_k] pairs the arguments with the
    indices [index], [index + 1], ... *)
Lemma APPLY_MACRO_TO_EACH_chain {B} (macro : string -> nat -> B) :
  forall (args : list string) (index : nat),
    args <> [] ->
    (length args <= 32)%nat ->
    APPLY_MACRO_TO_EACH_ (length args) macro index args
    = Some (map (fun p => macro (snd p) (fst p))
                (combine (seq index (length args)) args)).
Proof.
  induction args as [|a rest IH]; intros index Hne Hlen; [congruence|].
  rewrite APPLY_MACRO_TO_EACH_step by assumption.
  destruct rest as [|b rest'].
  - reflexivity.
  - change (length (a :: b :: rest')) with (S (length (b :: rest'))).
    cbv iota beta.
    rewrite IH by (try discriminate; simpl in *; lia).
    replace (index + 1)%nat with (S index) by lia.
    reflexivity.
Qed.

Lemma APPLY_MACRO_TO_EACH_expands {B} (macro : string -> nat -> B) (va : list string) :
  (1 <= length va <= 32)%nat ->
  APPLY_MACRO_TO_EACH macro va
  = Some (map (fun p => macro (snd p) (fst p)) (combine (seq 0 (length va)) va)).
Proof.
  intros H. unfold APPLY_MACRO_TO_EACH.
  rewrite GET_MACRO_selects by assumption.
  destruct va as [|a rest]; [simpl in H; lia|].
  unfold splice. rewrite app_nil_r.
  apply APPLY_MACRO_TO_EACH_chain; [discriminate | lia].
Qed.

End PreprocessorFacts.

(** ** What the declaration macro accepts *)

Lemma all_ok_REFLECT_EACH :
  forall (args : list string) (index : nat) (l : list (nat * string)),
    all_ok (map (fun p => REFLECT_EACH (snd p) (fst p))
                (combine (seq index (length args)) args)) = Ok l ->
    l = combine (seq index (length args)) args
    /\ Forall (fun a => a <> EmptyString) args.
Proof.
  induction args as [|a rest IH]; intros index l H; simpl in H.
  - inversion H. split; [reflexivity | constructor].
  - inv_bind H. inv_bind H. inversion H; subst l.
    destruct a as [|ch a']; [discriminate|].
    simpl in Ha. inversion Ha; subst a0.
    apply IH in Ha0. destruct Ha0 as [-> Hne].
    split; [reflexivity|]. constructor; [discriminate | assumption].
Qed.

Lemma all_ok_REFLECT_EACH_nonempty :
  forall (args : list string) (index : nat),
    Forall (fun a => a <> EmptyString) args ->
    all_ok (map (fun p => REFLECT_EACH (snd p) (fst p))
                (combine (seq index (length args)) args))
    = Ok (combine (seq index (length args)) args).
Proof.
  induction args as [|a rest IH]; intros index H; simpl.
  - reflexivity.
  - inversion H as [|? ? Ha Hrest]; subst.
    destruct a as [|ch a']; [congruence|].
    simpl. rewrite IH by assumption. reflexivity.
Qed.

(** An accepted declaration lists between 1 and 31 non-empty names; its
    constant is their number and its specialisations are the names under
    the indices 0, 1, ... in the order written. *)
Lemma REFLECTABLE_Ok_inv (va : list string) (m : reflection_members) :
  REFLECTABLE va = Ok m ->
  (1 <= length va <= 31)%nat
  /\ Forall (fun a => a <> EmptyString) va
  /\ m = {| _reflection_fields_n := Z.of_nat (length va);
            FieldData_specializations := enumerate va |}.
Proof.
  intros H.
  destruct (Nat.eq_dec (length va) 0) as [H0|H0].
  { destruct va; [discriminate H | discriminate H0]. }
  destruct (le_lt_dec 33 (length va)) as [Hbig|Hsmall].
  { unfold REFLECTABLE in H.
    rewrite PreprocessorFacts.COUNT_ARGS_overflow in H by assumption.
    destruct (nth_error va 32); discriminate H. }
  unfold REFLECTABLE in H.
  rewrite PreprocessorFacts.COUNT_ARGS_counts in H by lia.
  simpl bind in H. inv_bind H.
  apply static_assert_Ok_inv in Ha. apply Z.ltb_lt in Ha.
  rewrite PreprocessorFacts.APPLY_MACRO_TO_EACH_expands in H by lia.
  inv_bind H. inversion H; subst m.
  apply all_ok_REFLECT_EACH in Ha0. destruct Ha0 as [-> Hne].
  repeat split; try lia; assumption.
Qed.

Lemma REFLECTABLE_accepts (va : list string) :
  (1 <= length va <= 31)%nat ->
  Forall (fun a => a <> EmptyString) va ->
  REFLECTABLE va = Ok {| _reflection_fields_n := Z.of_nat (length va);
                         FieldData_specializations := enumerate va |}.
Proof.
  intros Hlen Hne. unfold REFLECTABLE.
  rewrite PreprocessorFacts.COUNT_ARGS_counts by lia. simpl bind.
  replace (Z.of_nat (length va) <? 32) with true
    by (symmetry; apply Z.ltb_lt; lia).
  simpl bind.
  rewrite PreprocessorFacts.APPLY_MACRO_TO_EACH_expands by lia.
  rewrite all_ok_REFLECT_EACH_nonempty by assumption. reflexivity.
Qed.

(** Exactly 32 names: the counter yields 32 and the assertion fails. *)
Lemma REFLECTABLE_32_rejected (va : list string) :
  length va = 32%nat ->
  REFLECTABLE va
  = Rejected (static_assert_failure
                "Reflection does not support more than 32 data members.").
Proof.
  intros H. unfold REFLECTABLE.
  rewrite PreprocessorFacts.COUNT_ARGS_counts by lia. rewrite H. reflexivity.
Qed.

(** More than 32 names: the counter yields the 33rd name. *)
Lemma REFLECTABLE_overflow_rejected (va : list string) :
  (33 <= length va)%nat ->
  REFLECTABLE va
  = Rejected (ill_formed "initializer of _reflection_fields_n is not a constant").
Proof.
  intros H. unfold REFLECTABLE.
  rewrite PreprocessorFacts.COUNT_ARGS_overflow by assumption.
  destruct (nth_error va 32); reflexivity.
Qed.

Lemma lookup_index_enumerate_from :
  forall (va : list string) (start N : nat),
    lookup_index (start + N) (combine (seq start (length va)) va) = nth_error va N.
Proof.
  induction va as [|a rest IH]; intros start N; simpl.
  - destruct N; reflexivity.
  - destruct N as [|N'].
    + rewrite Nat.add_0_r, Nat.eqb_refl. reflexivity.
    + replace (start =? start + S N')%nat with false
        by (symmetry; apply Nat.eqb_neq; lia).
      replace (start + S N')%nat with (S start + N')%nat by lia.
      apply IH.
Qed.

Lemma lookup_index_enumerate (va : list string) (N : nat) :
  lookup_index N (enumerate va) = nth_error va N.
Proof.
  apply (lookup_index_enumerate_from va 0 N).
Qed.

(** ** Members of classes and of their instances *)

Lemma with_member_type_lookup {R} (cn : string) (ms : list (string * ty))
      (args : option (list string)) (dm : string) (found : ty -> R) (missing : R) :
  with_member_type (Class cn ms args) dm found missing
  = match lookup dm ms with
    | Some t => found t
    | None => missing
    end.
Proof.
  simpl. induction ms as [|[n t] ms' IH]; simpl.
  - reflexivity.
  - destruct (String.eqb n dm); [reflexivity | apply IH].
Qed.

Lemma lookup_In {A} (dm : string) (l : list (string * A)) (a : A) :
  lookup dm l = Some a -> exists n, In (n, a) l.
Proof.
  induction l as [|[n b] rest IH]; simpl; intros H; [discriminate|].
  destruct (String.eqb n dm).
  - inversion H; subst. exists n. left. reflexivity.
  - destruct (IH H) as [n' Hin]. exists n'. right. assumption.
Qed.

Lemma instance_of_Class (cn : string) (ms : list (string * ty))
      (args : option (list string)) (x : value) :
  instance_of (Class cn ms args) x = true ->
  exists fs, x = Object fs
             /\ forall dm U, lookup dm ms = Some U ->
                             exists v, lookup dm fs = Some v /\ instance_of U v = true.
Proof.
  destruct x as [z|fs]; simpl; [discriminate|].
  intros H. exists fs. split; [reflexivity|].
  revert fs H. induction ms as [|[n t] ms' IH]; intros fs H dm U Hl.
  - discriminate Hl.
  - destruct fs as [|[n' x'] fs']; [discriminate H|].
    apply andb_prop in H. destruct H as [H Hrest].
    apply andb_prop in H. destruct H as [Hn Hx].
    apply String.eqb_eq in Hn. subst n'.
    simpl in Hl |- *. destruct (String.eqb n dm).
    + inversion Hl; subst. exists x'. split; [reflexivity | assumption].
    + apply (IH fs' Hrest dm U Hl).
Qed.

Lemma well_declared_member (cn : string) (ms : list (string * ty))
      (args : option (list string)) (dm : string) (U : ty) :
  well_declared (Class cn ms args) = true ->
  lookup dm ms = Some U ->
  well_declared U = true.
Proof.
  simpl. intros H Hl. apply andb_prop in H. destruct H as [_ H].
  rewrite forallb_forall in H.
  destruct (lookup_In _ _ _ Hl) as [n Hin].
  apply (H (n, U) Hin).
Qed.

Lemma well_declared_reflectable (cn : string) (ms : list (string * ty))
      (va : list string) :
  well_declared (Class cn ms (Some va)) = true ->
  REFLECTABLE va = Ok {| _reflection_fields_n := Z.of_nat (length va);
                         FieldData_specializations := enumerate va |}
  /\ (1 <= length va <= 31)%nat
  /\ forall N dm, nth_error va N = Some dm -> exists U, lookup dm ms = Some U.
Proof.
  simpl. intros H. apply andb_prop in H. destruct H as [H _].
  apply andb_prop in H. destruct H as [Hok Hmem].
  destruct (REFLECTABLE va) as [m|d] eqn:HR; [|discriminate Hok].
  destruct (REFLECTABLE_Ok_inv va m HR) as [Hlen [_ ->]].
  split; [reflexivity|]. split; [assumption|].
  intros N dm Hnth. rewrite forallb_forall in Hmem.
  specialize (Hmem dm (nth_error_In _ _ Hnth)).
  destruct (lookup dm ms) as [U|]; [eauto | discriminate Hmem].
Qed.

(** ** Descriptors of a well-declared class *)

Lemma base_of_remove_cvref (c : ty) (q : qualifiers) :
  q_base (remove_cvref_t {| q_base := c; q_quals := q |}) = c.
Proof. reflexivity. Qed.

Lemma base_of_decay (c : ty) (q : qualifiers) :
  q_base (decay_t {| q_base := c; q_quals := q |}) = c.
Proof. reflexivity. Qed.

Lemma isReflectable_base (c : ty) (q : qualifiers) :
  isReflectable {| q_base := c; q_quals := q |} = isReflectable (plain c).
Proof. reflexivity. Qed.

Lemma getNumberOfFields_declared (cn : string) (ms : list (string * ty))
      (va : list string) (q : qualifiers) :
  well_declared (Class cn ms (Some va)) = true ->
  getNumberOfFields {| q_base := Class cn ms (Some va); q_quals := q |}
  = Ok (Z.of_nat (length va)).
Proof.
  intros H. destruct (well_declared_reflectable _ _ _ H) as [HR _].
  unfold getNumberOfFields, query.getNumberOfFields.
  rewrite base_of_remove_cvref. cbn [static_members]. rewrite HR. reflexivity.
Qed.

Lemma lvalue_object_inv (q : qualifiers) :
  lvalue_object q = true -> q_ref q = lvalue_ref /\ q_volatile q = false.
Proof.
  unfold lvalue_object. destruct (q_ref q); try discriminate.
  destruct (q_volatile q); [discriminate | split; reflexivity].
Qed.

(** Every ordinal below the field count has a descriptor, bound to the
    instance; its [get()] is a read-only reference to the member. *)
Lemma field_facts (cn : string) (ms : list (string * ty)) (va : list string)
      (q : qualifiers) (x : value) (N : nat) :
  well_declared (Class cn ms (Some va)) = true ->
  instance_of (Class cn ms (Some va)) x = true ->
  lvalue_object q = true ->
  (N < length va)%nat ->
  exists dm U v,
    nth_error va N = Some dm
    /\ lookup dm ms = Some U
    /\ query.getFieldData N {| q_base := Class cn ms (Some va); q_quals := q |} x
       = Ok {| fd_index := N;
               fd_Object := {| q_base := Class cn ms (Some va); q_quals := q |};
               fd_dataMember := dm;
               fd_self := x |}
    /\ get {| fd_index := N;
              fd_Object := {| q_base := Class cn ms (Some va); q_quals := q |};
              fd_dataMember := dm;
              fd_self := x |}
       = Ok {| ref_access := read_only;
               ref_to := {| so_member := dm; so_value := v |} |}
    /\ well_declared U = true
    /\ instance_of U v = true.
Proof.
  intros Hwd Hinst Hlv HN.
  destruct (lvalue_object_inv q Hlv) as [Hq Hvol].
  destruct (well_declared_reflectable _ _ _ Hwd) as [HR [Hlen Hmem]].
  destruct (nth_error va N) as [dm|] eqn:Hnth;
    [|apply nth_error_None in Hnth; lia].
  destruct (Hmem N dm Hnth) as [U HU].
  destruct (instance_of_Class _ _ _ _ Hinst) as [fs [-> Hfs]].
  destruct (Hfs dm U HU) as [v [Hv Hiv]].
  exists dm, U, v. split; [reflexivity|]. split; [assumption|].
  split; [|split; [|split]].
  - unfold query.getFieldData. rewrite base_of_remove_cvref.
    cbn [static_members]. rewrite HR. cbn [bind FieldData_specializations].
    rewrite lookup_index_enumerate, Hnth. cbn [bind].
    rewrite base_of_decay.
    unfold member_type. rewrite with_member_type_lookup, HU. cbn [bind].
    unfold add_rvalue_reference_t. cbn [q_quals]. rewrite Hq.
    cbn [q_quals]. rewrite Hq. reflexivity.
  - unfold get. simpl. rewrite Hv. unfold is_const_v. simpl. rewrite Hq, Hvol.
    reflexivity.
  - apply (well_declared_member _ _ _ _ _ Hwd HU).
  - assumption.
Qed.

(** ** Descriptors, whatever the declaration *)

(** What [getFieldData] tells when it yields a descriptor. *)
Lemma getFieldData_Ok_inv (N : nat) (T : qtype) (x : value) (d : FieldData) :
  query.getFieldData N T x = Ok d ->
  exists cn ms va U,
    q_base T = Class cn ms (Some va)
    /\ nth_error va N = Some (fd_dataMember d)
    /\ lookup (fd_dataMember d) ms = Some U
    /\ q_ref (q_quals T) = lvalue_ref
    /\ d = {| fd_index := N; fd_Object := T;
              fd_dataMember := fd_dataMember d; fd_self := x |}.
Proof.
  destruct T as [c q]. unfold query.getFieldData.
  rewrite base_of_remove_cvref, base_of_decay. intros H.
  inv_bind H. rename a into m.
  destruct c as [tn | cn ms [va|]]; try discriminate Ha.
  cbn [static_members] in Ha.
  destruct (REFLECTABLE_Ok_inv va m Ha) as [_ [_ ->]].
  cbn [FieldData_specializations] in H. rewrite lookup_index_enumerate in H.
  inv_bind H. rename a into dm.
  destruct (nth_error va N) as [dm'|] eqn:Hnth; [|discriminate Ha0].
  inversion Ha0; subst dm'.
  inv_bind H. rename a into U.
  unfold member_type in Ha1. rewrite with_member_type_lookup in Ha1.
  destruct (lookup dm ms) as [U'|] eqn:HU; [|discriminate Ha1].
  inv_bind H.
  unfold add_rvalue_reference_t in Ha2. cbn [q_quals] in Ha2.
  destruct (q_ref q) eqn:Hq; cbn [q_quals q_ref] in Ha2;
    rewrite ?Hq in Ha2; try discriminate Ha2.
  inversion H; subst d. cbn [fd_dataMember q_base q_quals].
  exists cn, ms, va, U'. repeat split; assumption.
Qed.

(** No descriptor the query hands out gives a mutable reference (to a data
    member of object type, as the members modelled are). *)
Lemma get_read_only (N : nat) (T : qtype) (x : value) (d : FieldData) (r : reference) :
  query.getFieldData N T x = Ok d ->
  get d = Ok r ->
  ref_access r = read_only.
Proof.
  intros Hd Hr.
  destruct (getFieldData_Ok_inv N T x d Hd) as [cn [ms [va [U [_ [_ [_ [Hq Hd']]]]]]]].
  assert (HT : fd_Object d = T) by (rewrite Hd'; reflexivity).
  unfold get in Hr. rewrite HT in Hr.
  destruct (member_access (fd_self d) (fd_dataMember d)); [|discriminate Hr].
  unfold is_const_v in Hr. rewrite Hq in Hr.
  unfold bind_reference in Hr.
  destruct (q_volatile (q_quals T)); inversion Hr. reflexivity.
Qed.

Lemma query_getNumberOfFields_declared (cn : string) (ms : list (string * ty))
      (va : list string) (q : qualifiers) :
  well_declared (Class cn ms (Some va)) = true ->
  query.getNumberOfFields {| q_base := Class cn ms (Some va); q_quals := q |}
  = Ok (Z.of_nat (length va)).
Proof.
  apply getNumberOfFields_declared.
Qed.

Lemma make_integer_sequence_of_nat (k : nat) :
  make_integer_sequence (Z.of_nat k) = Ok (seq 0 k).
Proof.
  unfold make_integer_sequence.
  replace (Z.of_nat k <? 0) with false by (symmetry; apply Z.ltb_ge; lia).
  rewrite Nat2Z.id. reflexivity.
Qed.

Lemma spec_events_unfold (c : ty) (q : qualifiers) (x : value) :
  spec_events c q x
  = match getNumberOfFields {| q_base := c; q_quals := q |} with
    | Ok n => flat_map (spec_field spec_events c q x) (seq 0 (Z.to_nat n))
    | Rejected _ => []
    end.
Proof. destruct c; reflexivity. Qed.

Lemma spec_leaves_unfold (c : ty) (q : qualifiers) (x : value) :
  spec_leaves c q x
  = match getNumberOfFields {| q_base := c; q_quals := q |} with
    | Ok n => flat_map (spec_field_leaves spec_leaves c q x) (seq 0 (Z.to_nat n))
    | Rejected _ => []
    end.
Proof. destruct c; reflexivity. Qed.

Lemma not_reflectable_without_macro (cn : string) (ms : list (string * ty)) :
  isReflectable (plain (Class cn ms None)) = false.
Proof. reflexivity. Qed.

(** The type the generic lambda branches on is the descriptor's own
    [type]. *)
Lemma FieldData_type_of_descriptor (N : nat) (c : ty) (q : qualifiers) (x : value)
      (d : FieldData) :
  query.getFieldData N {| q_base := c; q_quals := q |} x = Ok d ->
  FieldData_type d = member_type c (fd_dataMember d)
  /\ exists type, FieldData_type d = Ok type.
Proof.
  intros Hd.
  destruct (getFieldData_Ok_inv _ _ _ _ Hd) as [cn [ms [va [U [Hc [_ [HU [_ Hd']]]]]]]].
  cbn [q_base] in Hc. subst c.
  assert (HT : fd_Object d = {| q_base := Class cn ms (Some va); q_quals := q |})
    by (rewrite Hd'; reflexivity).
  unfold FieldData_type. rewrite HT, base_of_decay.
  unfold member_type. rewrite with_member_type_lookup, HU.
  split; [reflexivity | eexists; reflexivity].
Qed.

(** ** The engine calls the callbacks in the order of [spec_events] *)

Section TraversalFacts.

Context {S : Type}.
Variable func : FieldData -> S -> result S.
Variables enterFunc exitFunc : S -> S.

Lemma bind_ret (r : result S) : (s <- r ;; Ok s) = r.
Proof. destruct r; reflexivity. Qed.

Lemma run_app (events1 events2 : list event) (s : S) :
  run func enterFunc exitFunc (events1 ++ events2) s
  = (s' <- run func enterFunc exitFunc events1 s ;;
     run func enterFunc exitFunc events2 s').
Proof.
  revert s. induction events1 as [|e rest IH]; intros s; simpl.
  - reflexivity.
  - destruct e; simpl; try apply IH.
    destruct (func fieldData s); simpl; [apply IH | reflexivity].
Qed.

Lemma _internal_visit_unfold (c : ty) (q : qualifiers) (x : value) (s : S) :
  _internal_visit func enterFunc exitFunc c q x s
  = (s' <- iterateThroughMember {| q_base := c; q_quals := q |} x
             (field_lambda func (_internal_visit func enterFunc exitFunc) c)
             (enterFunc s) ;;
     Ok (exitFunc s')).
Proof. destruct c; reflexivity. Qed.

Lemma forEach_flat_map (T : qtype) (x : value)
      (callback : FieldData -> S -> result S) (ev : nat -> list event) :
  forall ints : list nat,
    (forall N, In N ints -> forall s,
          (fieldData <- query.getFieldData N T x ;; callback fieldData s)
          = run func enterFunc exitFunc (ev N) s) ->
    forall s, forEach T x callback ints s
              = run func enterFunc exitFunc (flat_map ev ints) s.
Proof.
  induction ints as [|N rest IH]; intros H s; simpl.
  - reflexivity.
  - rewrite run_app. rewrite <- (H N (or_introl eq_refl) s).
    destruct (query.getFieldData N T x) as [d|e]; simpl; [|reflexivity].
    destruct (callback d s) as [s'|e]; simpl; [|reflexivity].
    apply IH. intros N' HN'. apply H. right. assumption.
Qed.

Lemma iterateThroughMember_events :
  forall (c : ty) (q : qualifiers) (x : value) (s : S),
    well_declared c = true ->
    instance_of c x = true ->
    lvalue_object q = true ->
    isReflectable (plain c) = true ->
    iterateThroughMember {| q_base := c; q_quals := q |} x
      (field_lambda func (_internal_visit func enterFunc exitFunc) c) s
    = run func enterFunc exitFunc (spec_events c q x) s.
Proof.
  induction c as [tn | cn ms args IH] using ty_ind;
    intros q x s Hwd Hinst Hq Hrefl; [discriminate Hrefl|].
  destruct args as [va|]; [|discriminate Hrefl].
  unfold iterateThroughMember.
  rewrite query_getNumberOfFields_declared by assumption. cbn [bind].
  rewrite make_integer_sequence_of_nat. cbn [bind].
  rewrite spec_events_unfold, getNumberOfFields_declared by assumption.
  rewrite Nat2Z.id.
  apply forEach_flat_map. intros N HN s'. apply in_seq in HN.
  destruct (field_facts cn ms va q x N Hwd Hinst Hq) as
      [dm [U [v [Hnth [HU [Hfd [Hget [HwU HiU]]]]]]]]; [lia|].
  unfold spec_field. rewrite Hfd. cbn [bind fd_dataMember].
  unfold field_lambda. cbn [fd_dataMember].
  rewrite !with_member_type_lookup, HU.
  destruct (isReflectable (plain U)) eqn:HrU.
  - rewrite Hget. cbn [bind ref_to so_value].
    rewrite _internal_visit_unfold.
    rewrite Forall_forall in IH.
    destruct (lookup_In _ _ _ HU) as [n Hin].
    rewrite (IH (n, U) Hin) by (try assumption; reflexivity).
    simpl run. rewrite run_app. reflexivity.
  - simpl run. symmetry. apply bind_ret.
Qed.

(** [visit(func, enterFunc, exitFunc, x)] on an lvalue of a well-declared
    reflectable class. *)
Lemma visit_with_hooks_events (c : ty) (q : qualifiers) (x : value) (s : S) :
  well_declared c = true ->
  instance_of c x = true ->
  lvalue_object q = true ->
  isReflectable (plain c) = true ->
  visit_with_hooks func enterFunc exitFunc {| q_base := c; q_quals := q |} x s
  = run func enterFunc exitFunc (spec_events c q x) s.
Proof.
  intros Hwd Hinst Hq Hrefl. unfold visit_with_hooks.
  rewrite isReflectable_base, Hrefl. cbn [static_assert bind q_base].
  apply iterateThroughMember_events; assumption.
Qed.

End TraversalFacts.

(** ** Shape of the specified trace *)

Lemma nested_app (a b : list event) : nested a -> nested b -> nested (a ++ b).
Proof.
  intros Ha Hb. induction Ha as [|d rest Hrest IH|inner rest Hinner _ Hrest IH]; simpl.
  - assumption.
  - constructor. assumption.
  - rewrite <- app_assoc. simpl. constructor; assumption.
Qed.

Lemma nested_flat_map {A} (f : A -> list event) (l : list A) :
  (forall a, In a l -> nested (f a)) -> nested (flat_map f l).
Proof.
  induction l as [|a rest IH]; intros H; simpl.
  - constructor.
  - apply nested_app; [apply H; left; reflexivity|].
    apply IH. intros a' Ha'. apply H. right. assumption.
Qed.

Lemma spec_events_nested : forall (c : ty) (q : qualifiers) (x : value),
    nested (spec_events c q x).
Proof.
  induction c as [tn | cn ms args IH] using ty_ind; intros q x;
    [apply nested_nil|].
  rewrite spec_events_unfold.
  destruct (getNumberOfFields _) as [n|e]; [|constructor].
  apply nested_flat_map. intros N _. unfold spec_field.
  destruct (query.getFieldData N _ x) as [d|e]; [|constructor].
  rewrite with_member_type_lookup.
  destruct (lookup (fd_dataMember d) ms) as [U|] eqn:HU; [|constructor].
  destruct (isReflectable (plain U)).
  - destruct (get d) as [r|e]; [|constructor].
    rewrite Forall_forall in IH. destruct (lookup_In _ _ _ HU) as [n' Hin].
    apply (nested_block _ []); [apply (IH (n', U) Hin) | constructor].
  - repeat constructor.
Qed.

Lemma leaves_of_app (a b : list event) :
  leaves_of (a ++ b) = leaves_of a ++ leaves_of b.
Proof.
  induction a as [|e rest IH]; simpl; [reflexivity|].
  destruct e; simpl; rewrite IH; reflexivity.
Qed.

Lemma leaves_of_flat_map {A} (f : A -> list event) (g : A -> list FieldData)
      (l : list A) :
  (forall a, In a l -> leaves_of (f a) = g a) ->
  leaves_of (flat_map f l) = flat_map g l.
Proof.
  induction l as [|a rest IH]; intros H; simpl; [reflexivity|].
  rewrite leaves_of_app, (H a (or_introl eq_refl)), IH; [reflexivity|].
  intros a' Ha'. apply H. right. assumption.
Qed.

(** Dropping the hook events from the specified trace leaves the specified
    leaves. *)
Lemma leaves_of_spec_events : forall (c : ty) (q : qualifiers) (x : value),
    leaves_of (spec_events c q x) = spec_leaves c q x.
Proof.
  induction c as [tn | cn ms args IH] using ty_ind; intros q x;
    [reflexivity|].
  rewrite spec_events_unfold, spec_leaves_unfold.
  destruct (getNumberOfFields _) as [n|e]; [|reflexivity].
  apply leaves_of_flat_map. intros N _. unfold spec_field, spec_field_leaves.
  destruct (query.getFieldData N _ x) as [d|e]; [|reflexivity].
  rewrite !with_member_type_lookup.
  destruct (lookup (fd_dataMember d) ms) as [U|] eqn:HU; [|reflexivity].
  destruct (isReflectable (plain U)); [|reflexivity].
  destruct (get d) as [r|e]; [|reflexivity].
  simpl. rewrite leaves_of_app, app_nil_r.
  rewrite Forall_forall in IH. destruct (lookup_In _ _ _ HU) as [n' Hin].
  apply (IH (n', U) Hin).
Qed.

Lemma flat_map_map_leaf {A} (f : A -> list event) (g : A -> list FieldData)
      (l : list A) :
  (forall a, In a l -> f a = map leaf (g a)) ->
  flat_map f l = map leaf (flat_map g l).
Proof.
  induction l as [|a rest IH]; intros H; simpl; [reflexivity|].
  rewrite map_app, (H a (or_introl eq_refl)), IH; [reflexivity|].
  intros a' Ha'. apply H. right. assumption.
Qed.

(** Without composite fields the trace has no hook events. *)
Lemma spec_events_of_leaves (c : ty) (q : qualifiers) (x : value) :
  well_declared c = true ->
  instance_of c x = true ->
  lvalue_object q = true ->
  all_fields_are_leaves c = true ->
  spec_events c q x = map leaf (spec_leaves c q x).
Proof.
  intros Hwd Hinst Hq Hall.
  destruct c as [tn | cn ms [va|]]; try reflexivity.
  rewrite spec_events_unfold, spec_leaves_unfold.
  rewrite getNumberOfFields_declared, Nat2Z.id by assumption.
  apply flat_map_map_leaf. intros N HN. apply in_seq in HN.
  destruct (field_facts cn ms va q x N Hwd Hinst Hq) as
      [dm [U [v [Hnth [HU [Hfd [Hget [HwU HiU]]]]]]]]; [lia|].
  unfold spec_field, spec_field_leaves. rewrite Hfd. cbn [fd_dataMember].
  rewrite !with_member_type_lookup, HU.
  cbn [all_fields_are_leaves] in Hall. rewrite forallb_forall in Hall.
  specialize (Hall dm (nth_error_In _ _ Hnth)). rewrite HU in Hall.
  apply negb_true_iff in Hall. rewrite Hall. reflexivity.
Qed.

Lemma run_without_hooks {S} (func : FieldData -> S -> result S)
      (events : list event) (s : S) :
  run func (fun s => s) (fun s => s) events s = run_leaves func (leaves_of events) s.
Proof.
  revert s. induction events as [|e rest IH]; intros s; simpl; [reflexivity|].
  destruct e; simpl; try apply IH.
  destruct (func fieldData s); simpl; [apply IH | reflexivity].
Qed.

Lemma run_log (events log : list event) :
  run log_leaf log_enter log_exit events log = Ok (log ++ events).
Proof.
  revert log. induction events as [|e rest IH]; intros log; simpl.
  - rewrite app_nil_r. reflexivity.
  - destruct e; simpl; rewrite IH; unfold log_enter, log_exit;
      rewrite <- app_assoc; reflexivity.
Qed.

Lemma run_leaves_log (leaves log : list FieldData) :
  run_leaves (fun d log => Ok (log ++ [d])) leaves log = Ok (log ++ leaves).
Proof.
  revert log. induction leaves as [|d rest IH]; intros log; simpl.
  - rewrite app_nil_r. reflexivity.
  - rewrite IH, <- app_assoc. reflexivity.
Qed.

(** The leaves of the specified trace are readable. *)
Lemma spec_leaves_readable : forall (c : ty) (q : qualifiers) (x : value),
    well_declared c = true ->
    instance_of c x = true ->
    lvalue_object q = true ->
    Forall readable (spec_leaves c q x).
Proof.
  induction c as [tn | cn ms args IH] using ty_ind; intros q x Hwd Hinst Hq;
    [apply Forall_nil|].
  destruct args as [va|]; [|apply Forall_nil].
  rewrite spec_leaves_unfold, getNumberOfFields_declared, Nat2Z.id by assumption.
  apply Forall_flat_map, Forall_forall. intros N HN. apply in_seq in HN.
  destruct (field_facts cn ms va q x N Hwd Hinst Hq) as
      [dm [U [v [Hnth [HU [Hfd [Hget [HwU HiU]]]]]]]]; [lia|].
  unfold spec_field_leaves. rewrite Hfd. cbn [fd_dataMember].
  rewrite with_member_type_lookup, HU.
  destruct (isReflectable (plain U)).
  - rewrite Hget. cbn [ref_to so_value].
    rewrite Forall_forall in IH. destruct (lookup_In _ _ _ HU) as [n' Hin].
    apply (IH (n', U) Hin); try assumption. reflexivity.
  - constructor; [|constructor]. exists v. exact Hget.
Qed.

(** ** The leaves are those of the paths of the class *)

Lemma flat_map_seq_nth {A} (g : string -> list A) :
  forall (va : list string) (f : nat -> list A),
    (forall N dm, nth_error va N = Some dm -> f N = g dm) ->
    flat_map f (seq 0 (length va)) = flat_map g va.
Proof.
  induction va as [|a rest IH]; intros f H; [reflexivity|].
  cbn [length seq flat_map]. rewrite (H 0%nat a eq_refl). f_equal.
  rewrite <- seq_shift, flat_map_concat_map, map_map, <- flat_map_concat_map.
  apply IH. intros N dm Hnth. apply (H (Datatypes.S N) dm). exact Hnth.
Qed.

Lemma leaf_paths_nonempty : forall (c : ty) (path : list string),
    In path (leaf_paths c) -> path <> [].
Proof.
  intros [tn | cn ms [va|]] path Hin; try contradiction.
  cbn [leaf_paths] in Hin. apply in_flat_map in Hin.
  destruct Hin as [dm [_ Hin]]. rewrite with_member_type_lookup in Hin.
  destruct (lookup dm ms) as [U|]; [|contradiction].
  destruct (isReflectable (plain U)).
  - apply in_map_iff in Hin. destruct Hin as [p [<- _]]. discriminate.
  - destruct Hin as [<-|[]]. discriminate.
Qed.

Lemma observe_path_cons (x v : value) (dm : string) (path : list string) :
  member_access x dm = Some v ->
  path <> [] ->
  observe_path x (dm :: path) = observe_path v path.
Proof.
  intros Hv Hne. unfold observe_path. cbn [value_at]. rewrite Hv.
  destruct path as [|p rest]; [congruence | reflexivity].
Qed.

Lemma map_flat_map_commute {A B C} (h : B -> C) (f : A -> list B) (l : list A) :
  map h (flat_map f l) = flat_map (fun a => map h (f a)) l.
Proof.
  induction l as [|a rest IH]; simpl; [reflexivity|].
  rewrite map_app, IH. reflexivity.
Qed.

Lemma get_Ok_member_access (d : FieldData) (r : reference) :
  get d = Ok r ->
  member_access (fd_self d) (fd_dataMember d) = Some (so_value (ref_to r)).
Proof.
  unfold get, bind_reference. intros H.
  destruct (member_access (fd_self d) (fd_dataMember d)) as [v|]; [|discriminate H].
  destruct (is_const_v (fd_Object d)), (q_volatile (q_quals (fd_Object d))),
    (q_const (q_quals (fd_Object d))); inversion H; reflexivity.
Qed.

(** The descriptors of [spec_leaves] are, in order, those of the leaf paths
    of the class: named by the last member of the path and referring to
    the sub-object of the instance the path leads to. *)
Lemma spec_leaves_paths : forall (c : ty) (q : qualifiers) (x : value),
    well_declared c = true ->
    instance_of c x = true ->
    lvalue_object q = true ->
    map observe (spec_leaves c q x) = map (observe_path x) (leaf_paths c).
Proof.
  induction c as [tn | cn ms args IH] using ty_ind; intros q x Hwd Hinst Hq;
    [reflexivity|].
  destruct args as [va|]; [|reflexivity].
  rewrite spec_leaves_unfold, getNumberOfFields_declared, Nat2Z.id by assumption.
  cbn [leaf_paths]. rewrite !map_flat_map_commute.
  apply flat_map_seq_nth. intros N dm Hnth.
  destruct (field_facts cn ms va q x N Hwd Hinst Hq) as
      [dm' [U [v [Hnth' [HU [Hfd [Hget [HwU HiU]]]]]]]].
  { apply nth_error_Some. rewrite Hnth. discriminate. }
  rewrite Hnth in Hnth'. inversion Hnth'; subst dm'.
  pose proof (get_Ok_member_access _ _ Hget) as Hv.
  cbn [fd_self fd_dataMember ref_to so_value] in Hv.
  unfold spec_field_leaves. rewrite Hfd. cbn [fd_dataMember].
  rewrite !with_member_type_lookup, HU.
  destruct (isReflectable (plain U)).
  - rewrite Hget. cbn [ref_to so_value].
    rewrite Forall_forall in IH. destruct (lookup_In _ _ _ HU) as [n' Hin].
    rewrite (IH (n', U) Hin) by (try assumption; reflexivity).
    rewrite map_map. apply map_ext_in. intros path Hpath. symmetry.
    apply observe_path_cons; [exact Hv|].
    apply (leaf_paths_nonempty U). exact Hpath.
  - cbn [map]. unfold observe, observe_path. rewrite Hget.
    cbn [name fd_dataMember ref_to so_value last value_at]. rewrite Hv.
    reflexivity.
Qed.

(** ** prettyPrint *)

Lemma append_assoc (a b c : string) : ((a ++ b) ++ c = a ++ (b ++ c))%string.
Proof.
  induction a as [|ch a IH]; simpl; [reflexivity | rewrite IH; reflexivity].
Qed.

Lemma append_nil_r (a : string) : (a ++ EmptyString = a)%string.
Proof.
  induction a as [|ch a IH]; simpl; [reflexivity | rewrite IH; reflexivity].
Qed.

Lemma spaces_add (a b : nat) : (spaces a ++ spaces b)%string = spaces (a + b).
Proof.
  induction a as [|a IH]; simpl; [reflexivity | rewrite IH; reflexivity].
Qed.

(** The header's loop writes [bound] units of four spaces. *)
Lemma indent_spaces (bound : Z) (cout : string) :
  indent bound cout = (cout ++ spaces (width_of bound))%string.
Proof.
  unfold indent, width_of. induction (Z.to_nat bound) as [|n IH].
  - simpl. rewrite append_nil_r. reflexivity.
  - rewrite Nat.iter_succ, IH, append_assoc.
    change "    "%string with (spaces 4). rewrite spaces_add.
    replace (n * 4 + 4)%nat with (Datatypes.S n * 4)%nat by lia. reflexivity.
Qed.

Section PrettyPrintFacts.

Variable stream : value -> string.

Lemma prettyPrint_leaf_writes (d : FieldData) (depth : Z) (cout : string) (r : reference) :
  get d = Ok r ->
  prettyPrint_leaf stream d (depth, cout)
  = Ok (depth,
        (cout ++ spaces (width_of (depth + 1)) ++ name d ++ " = "
         ++ stream (so_value (ref_to r)) ++ "," ++ newline)%string).
Proof.
  intros H. unfold prettyPrint_leaf. rewrite indent_spaces, H. cbn [bind].
  rewrite !append_assoc. reflexivity.
Qed.

Lemma prettyPrint_enter_writes (depth : Z) (cout : string) :
  prettyPrint_enter (depth, cout)
  = (depth + 1, (cout ++ spaces (width_of (depth + 1)) ++ "{" ++ newline)%string).
Proof.
  unfold prettyPrint_enter. rewrite indent_spaces, !append_assoc. reflexivity.
Qed.

Lemma prettyPrint_exit_writes (depth : Z) (cout : string) :
  prettyPrint_exit (depth, cout)
  = (depth - 1, (cout ++ spaces (width_of depth) ++ "}," ++ newline)%string).
Proof.
  unfold prettyPrint_exit. rewrite indent_spaces, !append_assoc. reflexivity.
Qed.

Lemma leaf_text_newline (d : FieldData) (r : reference) :
  get d = Ok r ->
  (leaf_text stream d ++ newline)%string
  = (name d ++ " = " ++ stream (so_value (ref_to r)) ++ "," ++ newline)%string.
Proof.
  intros H. unfold leaf_text. rewrite H, !append_assoc. reflexivity.
Qed.

Lemma run_prettyPrint : forall (events : list event) (depth : Z) (cout : string),
    Forall readable (leaves_of events) ->
    run (prettyPrint_leaf stream) prettyPrint_enter prettyPrint_exit events (depth, cout)
    = Ok (depth_after depth events, (cout ++ pp_render stream depth events)%string).
Proof.
  induction events as [|e rest IH]; intros depth cout Hr.
  - simpl. rewrite append_nil_r. reflexivity.
  - destruct e as [d| |]; cbn [run pp_render depth_after leaves_of] in *.
    + inversion Hr as [|? ? [v Hd] Hrest]; subst.
      rewrite (prettyPrint_leaf_writes d depth cout _ Hd). cbn [bind].
      rewrite IH by assumption.
      rewrite <- (leaf_text_newline d _ Hd), !append_assoc. reflexivity.
    + rewrite prettyPrint_enter_writes, IH by assumption.
      rewrite !append_assoc. reflexivity.
    + rewrite prettyPrint_exit_writes, IH by assumption.
      rewrite !append_assoc. reflexivity.
Qed.

(** After a nested trace the depth is what it was. *)
Lemma depth_after_app (a b : list event) (depth : Z) :
  depth_after depth (a ++ b) = depth_after (depth_after depth a) b.
Proof.
  revert depth. induction a as [|e rest IH]; intros depth; [reflexivity|].
  destruct e; simpl; apply IH.
Qed.

Lemma depth_after_nested (events : list event) :
  nested events -> forall depth, depth_after depth events = depth.
Proof.
  induction 1 as [|d rest Hrest IH|inner rest Hinner IHi Hrest IHr]; intros depth.
  - reflexivity.
  - simpl. apply IH.
  - cbn [depth_after]. rewrite depth_after_app, IHi. cbn [depth_after].
    rewrite IHr. lia.
Qed.

Lemma pp_render_app (a b : list event) (depth : Z) :
  pp_render stream depth (a ++ b)
  = (pp_render stream depth a ++ pp_render stream (depth_after depth a) b)%string.
Proof.
  revert depth. induction a as [|e rest IH]; intros depth; [reflexivity|].
  destruct e; cbn [app pp_render depth_after]; rewrite IH, !append_assoc;
    reflexivity.
Qed.

(** A composite field's block: [{] and [},] at the same width, the
    contents one level deeper, and what follows back at the enclosing
    level. *)
Lemma pp_render_block (inner rest : list event) (depth : Z) :
  nested inner ->
  pp_render stream depth (enter :: inner ++ exit :: rest)
  = (spaces (width_of (depth + 1)) ++ "{" ++ newline
     ++ pp_render stream (depth + 1) inner
     ++ spaces (width_of (depth + 1)) ++ "}," ++ newline
     ++ pp_render stream depth rest)%string.
Proof.
  intros Hn. cbn [pp_render]. rewrite pp_render_app.
  rewrite (depth_after_nested inner Hn). cbn [pp_render].
  replace (depth + 1 - 1) with depth by lia.
  rewrite ?append_assoc. reflexivity.
Qed.

Lemma logged_leaf_writes (d : FieldData) (depth : Z) (cout : string)
      (log : list leaf_line) (r : reference) :
  get d = Ok r ->
  logged_leaf stream d ((depth, cout), log)
  = Ok ((depth,
         (cout ++ spaces (width_of (depth + 1)) ++ name d ++ " = "
          ++ stream (so_value (ref_to r)) ++ "," ++ newline)%string),
        log ++ [(depth, d,
                 (spaces (width_of (depth + 1)) ++ name d ++ " = "
                  ++ stream (so_value (ref_to r)) ++ "," ++ newline)%string)]).
Proof.
  intros H. unfold logged_leaf. cbn [fst snd].
  rewrite !(prettyPrint_leaf_writes d depth _ _ H). reflexivity.
Qed.

Lemma run_logged : forall (events : list event) (s : pp_state) (log : list leaf_line),
    Forall readable (leaves_of events) ->
    exists s' log',
      run (logged_leaf stream) logged_enter logged_exit events (s, log)
      = Ok (s', log ++ log')
      /\ Forall (fun l => leaf_line_at stream (Z.to_nat (fst (fst l) + 1) * 4)
                                       (snd (fst l)) (snd l)) log'.
Proof.
  induction events as [|e rest IH]; intros s log Hr.
  - exists s, []. rewrite app_nil_r. split; [reflexivity | constructor].
  - destruct e as [d| |]; cbn [run leaves_of] in *.
    + inversion Hr as [|? ? [v Hd] Hrest]; subst.
      destruct s as [depth cout].
      pose proof (logged_leaf_writes d depth cout log _ Hd) as Hw.
      match type of Hw with
      | _ = Ok (?s1, log ++ [?l]) =>
          destruct (IH s1 (log ++ [l]) Hrest) as [s' [log' [Hrun Hall]]];
          exists s', (l :: log')
      end.
      split.
      * unfold pp_state in *. rewrite Hw. cbn [bind].
        rewrite Hrun, <- app_assoc. reflexivity.
      * constructor; [|assumption]. cbn [fst snd].
        eexists. split; [exact Hd | reflexivity].
    + apply (IH (prettyPrint_enter s) log). assumption.
    + apply (IH (prettyPrint_exit s) log). assumption.
Qed.

End PrettyPrintFacts.

Lemma spec_events_readable (c : ty) (q : qualifiers) (x : value) :
  well_declared c = true ->
  instance_of c x = true ->
  lvalue_object q = true ->
  Forall readable (leaves_of (spec_events c q x)).
Proof.
  intros Hwd Hinst Hq. rewrite leaves_of_spec_events.
  apply spec_leaves_readable; assumption.
Qed.

(** What prettyPrint writes is the rendering of the specified trace between
    the outer braces. *)
Lemma prettyPrint_renders (stream : value -> string) (c : ty) (q : qualifiers)
      (x : value) (cout : string) :
  well_declared c = true ->
  instance_of c x = true ->
  lvalue_object q = true ->
  isReflectable (plain c) = true ->
  prettyPrint stream {| q_base := c; q_quals := q |} x cout
  = Ok (cout ++ "{" ++ newline
        ++ pp_render stream 0 (spec_events c q x)
        ++ "}" ++ newline)%string.
Proof.
  intros Hwd Hinst Hq Hrefl. unfold prettyPrint.
  rewrite isReflectable_base, Hrefl. cbn [static_assert bind].
  rewrite visit_with_hooks_events by assumption.
  rewrite run_prettyPrint by (apply spec_events_readable; assumption).
  cbn [bind snd]. rewrite !append_assoc. reflexivity.
Qed.

(** Every call of the leaf lambda writes its line (depth + 1) units in. *)
Lemma prettyPrint_leaf_lines_indented (stream : value -> string) (c : ty)
      (q : qualifiers) (x : value) :
  well_declared c = true ->
  instance_of c x = true ->
  lvalue_object q = true ->
  isReflectable (plain c) = true ->
  exists lines,
    prettyPrint_leaf_lines stream {| q_base := c; q_quals := q |} x = Ok lines
    /\ Forall (fun l => leaf_line_at stream (Z.to_nat (fst (fst l) + 1) * 4)
                                     (snd (fst l)) (snd l)) lines.
Proof.
  intros Hwd Hinst Hq Hrefl. unfold prettyPrint_leaf_lines.
  rewrite isReflectable_base, Hrefl. cbn [static_assert bind].
  rewrite visit_with_hooks_events by assumption.
  destruct (run_logged stream (spec_events c q x) (0, ("{" ++ newline)%string) []
                       (spec_events_readable c q x Hwd Hinst Hq))
    as [s' [log' [Hrun Hall]]].
  exists log'. split; [|assumption].
  match goal with
  | |- bind ?r _ = _ =>
      replace r with (Ok (s', [] ++ log') : result (pp_state * list leaf_line))
        by (symmetry; exact Hrun)
  end.
  reflexivity.
Qed.

(** ** Rejection is decided by the type *)




Section Outcome.

Context {S : Type}.
Variable leafFunc : FieldData -> S -> S.
Variables enterFunc exitFunc : S -> S.

Let func (d : FieldData) (s : S) : result S := Ok (leafFunc d s).




Lemma run_total (events : list event) (s : S) :
  exists s', run func enterFunc exitFunc events s = Ok s'.
Proof.
  revert s. induction events as [|e rest IH]; intros s; simpl; [eauto|].
  destruct e; simpl; apply IH.
Qed.

End Outcome.

(** * The claims *)

Import Examples.
Local Open Scope string_scope.
Local Open Scope list_scope.

(** ** The driver's calls, evaluated *)

(** 2.0 of main.cpp: only the listed members of [Data] reach the callback,
    in the order listed. *)
Example visit_Data_names :
  visit (fun d log => Ok (log ++ [name d])) (lref true Data)
        (Object [("foo", Scalar 1); ("bar", Scalar 2); ("baz", Scalar 3)]) []
  = Ok ["foo"; "baz"].
Proof. reflexivity. Qed.

(** 3.0 of main.cpp: the leaves of [Points] are reached through its three
    composite fields. *)
Example leaf_paths_Points :
  leaf_paths Points
  = [["pt1"; "x"]; ["pt1"; "y"]; ["pt2"; "x"]; ["pt2"; "y"]; ["pt3"; "x"]; ["pt3"; "y"]].
Proof. reflexivity. Qed.

Example prettyPrint_r1 :
  prettyPrint show (lref false R1) r1 ""
  = Ok "{
    a = 1,
    {
        c = 2,
        d = 3,
    },
}
".
Proof. reflexivity. Qed.

(** A class that lists 32 members is rejected where it is declared, and so
    is every use of it. *)
Example print_Wide_32_rejected :
  print (lref false (Wide 32)) (wide 32)
  = Rejected (static_assert_failure
                "Reflection does not support more than 32 data members.").
Proof. vm_compute. reflexivity. Qed.

Example print_Wide_31 : print (lref false (Wide 31)) (wide 31) = Ok tt.
Proof. vm_compute. reflexivity. Qed.

(** A temporary cannot be visited: the descriptor's constructor does not
    bind its [Object&&] member. *)
Example visit_rvalue_rejected :
  visit (fun d log => Ok (log ++ [name d])) (plain Point) (point 1 2) []
  = Rejected (ill_formed "cannot bind an rvalue reference to an lvalue").
Proof. reflexivity. Qed.

(** C1 — [get()] and the mutability of the owning instance.  The
    specification, like the header's introduction ([int& get()]), has a
    mutable instance yield a mutable reference.  On the mutable lvalue
    [Point p {1, 2}] ([Object = Point&]) the descriptor of ordinal 0 selects
    the overload guarded by [!std::is_const_v<Object>], whose return type
    is [float const&]: the reference is read-only and an assignment through
    it is rejected, so no write can be observed on the instance. *)
Theorem get_on_mutable_instance_is_read_only :
  exists d : FieldData,
    query.getFieldData 0 (lref false Point) (point 1 2) = Ok d
    /\ is_const_v (fd_Object d) = false
    /\ get d = Ok {| ref_access := read_only;
                     ref_to := {| so_member := "x"; so_value := Scalar 1 |} |}
    /\ (forall r new, get d = Ok r ->
                      assign_through r new (point 1 2)
                      = Rejected (ill_formed "assignment of read-only location")).
Proof.
  eexists. split; [reflexivity|]. split; [reflexivity|]. split; [reflexivity|].
  intros r new Hr. inversion Hr; subst r. reflexivity.
Qed.

(** C2 — the field-count ceiling.  The specification has a declaration of
    exactly 32 fields accepted.  [REFLECTABLE] with 32 names fails its own
    [static_assert(_reflection_fields_n < 32, ...)], whose message speaks of
    more than 32 members; 31 names are accepted, and 33 names are rejected
    because the counter then yields the 33rd name instead of a number. *)
Theorem declaring_32_fields_is_rejected :
  REFLECTABLE (member_names 32)
  = Rejected (static_assert_failure
                "Reflection does not support more than 32 data members.")
  /\ is_ok (REFLECTABLE (member_names 31)) = true
  /\ REFLECTABLE (member_names 33)
     = Rejected (ill_formed "initializer of _reflection_fields_n is not a constant").
Proof.
  repeat split; vm_compute; reflexivity.
Qed.

(** C3, as stated, fails: the class that lists nothing in [REFLECTABLE()] is
    not accepted, its field count is not 0 and visiting it does not
    complete. *)
Lemma zero_fields_counterexample :
  is_ok (REFLECTABLE []) = false
  /\ well_declared Empty = false
  /\ getNumberOfFields (lref false Empty) <> Ok 0
  /\ visit log_leaf (lref false Empty) empty [] <> Ok [].
Proof.
  repeat split; try reflexivity; vm_compute; discriminate.
Qed.

(** C3, amended — a declaration that lists zero fields is rejected
    statically: the argument counter yields 1 for the empty list and the
    one descriptor generated has an empty member name.  Every accepted
    declaration lists at least one field, and its field count is the number
    of names listed. *)
Theorem zero_field_declaration_is_rejected :
  Preprocessor.COUNT_ARGS [] = Some (inr 1)
  /\ REFLECTABLE [] = Rejected (ill_formed "expected a member name")
  /\ (forall (S : Type) (func : FieldData -> S -> result S) (cn : string)
             (ms : list (string * ty)) (q : qualifiers) (x : value) (s : S),
         visit func {| q_base := Class cn ms (Some []); q_quals := q |} x s
         = Rejected (ill_formed "expected a member name"))
  /\ (forall (va : list string) (m : reflection_members),
         REFLECTABLE va = Ok m ->
         1 <= _reflection_fields_n m
         /\ _reflection_fields_n m = Z.of_nat (length va)).
Proof.
  split; [reflexivity|]. split; [reflexivity|]. split; [reflexivity|].
  intros va m H. destruct (REFLECTABLE_Ok_inv va m H) as [Hlen [_ ->]].
  simpl. split; [lia | reflexivity].
Qed.

Lemma zero_field_declaration_is_rejected_witness :
  REFLECTABLE ["x"; "y"]
  = Ok {| _reflection_fields_n := 2;
          FieldData_specializations := [(0%nat, "x"); (1%nat, "y")] |}
  /\ 1 <= _reflection_fields_n {| _reflection_fields_n := 2;
                               FieldData_specializations := [(0%nat, "x"); (1%nat, "y")] |}
  /\ _reflection_fields_n {| _reflection_fields_n := 2;
                             FieldData_specializations := [(0%nat, "x"); (1%nat, "y")] |}
     = Z.of_nat (length ["x"; "y"]).
Proof.
  split; [reflexivity|].
  apply (proj2 (proj2 (proj2 zero_field_declaration_is_rejected)) ["x"; "y"]).
  reflexivity.
Defined.

(** C4 — [visit(leafCallback, instance)] on an lvalue of a reflectable class
    of a program that compiles: the leaf callback is called once per leaf
    reachable after expanding the composite fields, in declared order,
    depth-first; that is, the state it returns is the one obtained by
    calling the callback along [spec_leaves], a callback that writes down
    its argument writes down exactly [spec_leaves], and these descriptors
    are, one for one and in order, those of the leaf paths of the class
    ([leaf_paths]), each named by its member and referring to the
    sub-object of the instance at its path. *)
Theorem visit_calls_leaf_callback_once_per_leaf_in_order :
  forall (c : ty) (q : qualifiers) (x : value),
    well_declared c = true ->
    instance_of c x = true ->
    lvalue_object q = true ->
    isReflectable (plain c) = true ->
    (forall (S : Type) (func : FieldData -> S -> result S) (s : S),
        visit func {| q_base := c; q_quals := q |} x s
        = run_leaves func (spec_leaves c q x) s)
    /\ visit (fun d log => Ok (log ++ [d])) {| q_base := c; q_quals := q |} x []
       = Ok (spec_leaves c q x)
    /\ map observe (spec_leaves c q x) = map (observe_path x) (leaf_paths c).
Proof.
  intros c q x Hwd Hinst Hq Hrefl.
  assert (H : forall (S : Type) (func : FieldData -> S -> result S) (s : S),
             visit func {| q_base := c; q_quals := q |} x s
             = run_leaves func (spec_leaves c q x) s).
  { intros S func s. unfold visit.
    rewrite visit_with_hooks_events by assumption.
    rewrite run_without_hooks, leaves_of_spec_events. reflexivity. }
  split; [exact H|]. split.
  - rewrite H. apply (run_leaves_log _ []).
  - apply spec_leaves_paths; assumption.
Qed.

Lemma visit_calls_leaf_callback_once_per_leaf_in_order_witness :
  well_declared Points = true
  /\ instance_of Points (points (point 1 2) (point 3 4) (point 5 6)) = true
  /\ lvalue_object (q_quals (lref true Points)) = true
  /\ isReflectable (plain Points) = true
  /\ visit (fun d log => Ok (log ++ [d])) (lref true Points)
        (points (point 1 2) (point 3 4) (point 5 6)) []
  = Ok (spec_leaves Points (q_quals (lref true Points))
                    (points (point 1 2) (point 3 4) (point 5 6))).
Proof.
  do 4 (split; [reflexivity|]).
  apply (visit_calls_leaf_callback_once_per_leaf_in_order
           Points (q_quals (lref true Points))
           (points (point 1 2) (point 3 4) (point 5 6))); reflexivity.
Defined.

(** C5 — the hook-augmented [visit] called with callbacks of the caller's
    own.  The specification has the call on [R1] produce leaf(a), enter,
    leaf(c), leaf(d), exit.  The lambda of [visit] calls [_internal_visit]
    ahead of its declaration; on [R1] the call is instantiated for the
    composite field [b], no argument of it is of a type that namespace
    [reflection] is associated with, so the name is not found and the call
    of [visit] is rejected at translation: no callback is called.  Were the
    name found, as it is for callbacks written in namespace [reflection],
    the calls would be the ones the specification gives. *)
Theorem visit_with_hooks_of_the_caller_is_rejected :
  visit_with_hooks_by_lookup log_leaf log_enter log_exit of_the_caller
                             (lref false R1) r1 []
  = Rejected _internal_visit_not_declared
  /\ visit_with_hooks_by_lookup log_leaf log_enter log_exit of_the_header
                                (lref false R1) r1 []
     = Ok [leaf {| fd_index := 0; fd_Object := lref false R1;
                   fd_dataMember := "a"; fd_self := r1 |};
           enter;
           leaf {| fd_index := 0; fd_Object := lref true R2;
                   fd_dataMember := "c";
                   fd_self := Object [("c", Scalar 2); ("d", Scalar 3)] |};
           leaf {| fd_index := 1; fd_Object := lref true R2;
                   fd_dataMember := "d";
                   fd_self := Object [("c", Scalar 2); ("d", Scalar 3)] |};
           exit].
Proof.
  split; reflexivity.
Qed.

(** C7 — for a reflectable class of a program that compiles, declared with
    the names [va]: the field-count query returns [length va] under every
    qualification of the type; every ordinal below it has a descriptor on
    an lvalue; and whatever instance and qualification a descriptor of
    ordinal [N] is asked for, its [name()] is the [N]-th name as listed. *)
Theorem field_count_and_names_as_declared :
  forall (cn : string) (ms : list (string * ty)) (va : list string),
    well_declared (Class cn ms (Some va)) = true ->
    (forall q : qualifiers,
        getNumberOfFields {| q_base := Class cn ms (Some va); q_quals := q |}
        = Ok (Z.of_nat (length va)))
    /\ (forall (N : nat) (q : qualifiers) (x : value),
           (N < length va)%nat ->
           q_ref q = lvalue_ref ->
           exists d,
             query.getFieldData N {| q_base := Class cn ms (Some va); q_quals := q |} x
             = Ok d)
    /\ (forall (N : nat) (q : qualifiers) (x : value) (d : FieldData),
           query.getFieldData N {| q_base := Class cn ms (Some va); q_quals := q |} x
           = Ok d ->
           (N < length va)%nat /\ nth_error va N = Some (name d)).
Proof.
  intros cn ms va Hwd. split; [|split].
  - intros q. apply getNumberOfFields_declared. assumption.
  - intros N q x HN Hq.
    destruct (well_declared_reflectable _ _ _ Hwd) as [HR [Hlen Hmem]].
    destruct (nth_error va N) as [dm|] eqn:Hnth;
      [|apply nth_error_None in Hnth; lia].
    destruct (Hmem N dm Hnth) as [U HU].
    eexists. unfold query.getFieldData. rewrite base_of_remove_cvref.
    cbn [static_members]. rewrite HR. cbn [bind FieldData_specializations].
    rewrite lookup_index_enumerate, Hnth. cbn [bind].
    rewrite base_of_decay.
    unfold member_type. rewrite with_member_type_lookup, HU. cbn [bind].
    unfold add_rvalue_reference_t. cbn [q_quals]. rewrite Hq.
    cbn [q_quals]. rewrite Hq. reflexivity.
  - intros N q x d Hd.
    destruct (getFieldData_Ok_inv _ _ _ _ Hd) as [cn' [ms' [va' [U [Hc [Hnth _]]]]]].
    cbn [q_base] in Hc. inversion Hc; subst cn' ms' va'.
    split; [|exact Hnth].
    apply nth_error_Some. rewrite Hnth. discriminate.
Qed.

Lemma field_count_and_names_as_declared_witness :
  well_declared Data = true
  /\ getNumberOfFields (lref true Data) = Ok 2
  /\ (exists d, query.getFieldData 1 (lref true Data)
                  (Object [("foo", Scalar 1); ("bar", Scalar 2); ("baz", Scalar 3)])
                = Ok d).
Proof.
  split; [reflexivity|].
  pose proof (field_count_and_names_as_declared
                "Data"
                [("foo", Fundamental "std::string");
                 ("bar", Fundamental "std::vector<int>");
                 ("baz", Fundamental "std::unordered_set<float>")]
                ["foo"; "baz"] eq_refl) as [Hn [Hd _]].
  split.
  - apply (Hn (q_quals (lref true Data))).
  - apply (Hd 1%nat (q_quals (lref true Data))); [simpl; lia | reflexivity].
Defined.


(** C10 — for every descriptor the query yields for an instance [x]: [get()]
    returns a reference, and applying the descriptor's pointer to member to
    [x] designates the sub-object that reference refers to; the pointer is
    one into the class of [x]. *)
Theorem pointer_to_member_designates_what_get_returns :
  forall (N : nat) (T : qtype) (x : value) (d : FieldData),
    query.getFieldData N T x = Ok d ->
    instance_of (q_base T) x = true ->
    q_volatile (q_quals T) = false ->
    exists r,
      get d = Ok r
      /\ pointer_to_member_access x (getPointerToMember d) = Some (ref_to r)
      /\ ptm_class (getPointerToMember d) = q_base T.
Proof.
  intros N T x d Hd Hinst Hvol.
  destruct (getFieldData_Ok_inv N T x d Hd) as [cn [ms [va [U [Hc [_ [HU [Hq Hd']]]]]]]].
  rewrite Hc in Hinst.
  destruct (instance_of_Class _ _ _ _ Hinst) as [fs [-> Hfs]].
  destruct (Hfs _ _ HU) as [v [Hv _]].
  assert (HT : fd_Object d = T) by (rewrite Hd'; reflexivity).
  assert (Hself : fd_self d = Object fs) by (rewrite Hd'; reflexivity).
  exists {| ref_access := read_only;
            ref_to := {| so_member := fd_dataMember d; so_value := v |} |}.
  split; [|split].
  - unfold get. rewrite Hself, HT. cbn [member_access]. rewrite Hv.
    unfold is_const_v, bind_reference. rewrite Hq, Hvol. reflexivity.
  - unfold pointer_to_member_access, getPointerToMember.
    cbn [ptm_member member_access ref_to]. rewrite Hv. reflexivity.
  - unfold getPointerToMember. cbn [ptm_class]. rewrite HT.
    destruct T as [c q]. apply base_of_decay.
Qed.

Lemma pointer_to_member_designates_what_get_returns_witness :
  query.getFieldData 1 (lref true Point) (point 5 10)
  = Ok {| fd_index := 1; fd_Object := lref true Point;
          fd_dataMember := "y"; fd_self := point 5 10 |}
  /\ instance_of (q_base (lref true Point)) (point 5 10) = true
  /\ q_volatile (q_quals (lref true Point)) = false
  /\ exists r,
      get {| fd_index := 1; fd_Object := lref true Point;
             fd_dataMember := "y"; fd_self := point 5 10 |} = Ok r
      /\ pointer_to_member_access (point 5 10)
           (getPointerToMember {| fd_index := 1; fd_Object := lref true Point;
                                  fd_dataMember := "y"; fd_self := point 5 10 |})
         = Some (ref_to r)
      /\ ptm_class (getPointerToMember {| fd_index := 1; fd_Object := lref true Point;
                                          fd_dataMember := "y"; fd_self := point 5 10 |})
         = q_base (lref true Point).
Proof.
  do 3 (split; [reflexivity|]).
  apply (pointer_to_member_designates_what_get_returns 1 (lref true Point) (point 5 10));
    reflexivity.
Defined.

(** C6, as stated, fails: on [R1] the leaf line of [a] is written at
    [recursionDepth = 0] and is four spaces in, so with no unit is every
    leaf line [depth] units in. *)
Lemma leaf_lines_not_at_depth_units :
  exists lines,
    prettyPrint_leaf_lines show (lref false R1) r1 = Ok lines
    /\ ~ leaf_lines_at_depth_units show lines.
Proof.
  eexists. split; [vm_compute; reflexivity|].
  intros [unit H]. inversion H as [|l rest [r [Hr Ht]] _]; subst.
  cbn [fst snd] in Hr, Ht. vm_compute in Hr. inversion Hr; subst r.
  simpl in Ht. discriminate Ht.
Qed.

(** C6, amended — with [recursionDepth] 0 at the top level, raised by each
    [enterFunc] and lowered by each [exitFunc], prettyPrint on an lvalue of
    a reflectable class of a program that compiles writes every leaf line
    [name = value,] at a width of (depth + 1) units of four spaces, between
    an outer [{] and [}] at width 0; a composite field is written as a block
    of its own, [{] and [},] at the width of the leaves around it and its
    contents one unit deeper; after the block the enclosing level's width
    is back. *)
Theorem prettyPrint_indents_by_depth_plus_one :
  (forall (stream : value -> string) (c : ty) (q : qualifiers) (x : value),
      well_declared c = true ->
      instance_of c x = true ->
      lvalue_object q = true ->
      isReflectable (plain c) = true ->
      (exists lines,
          prettyPrint_leaf_lines stream {| q_base := c; q_quals := q |} x = Ok lines
          /\ Forall (fun l => leaf_line_at stream (Z.to_nat (fst (fst l) + 1) * 4)
                                           (snd (fst l)) (snd l)) lines)
      /\ (forall cout : string,
             prettyPrint stream {| q_base := c; q_quals := q |} x cout
             = Ok (cout ++ "{" ++ newline
                   ++ pp_render stream 0 (spec_events c q x)
                   ++ "}" ++ newline)%string))
  /\ (forall (stream : value -> string) (inner rest : list event) (depth : Z),
         nested inner ->
         pp_render stream depth (enter :: inner ++ exit :: rest)
         = (spaces (Z.to_nat (depth + 1) * 4) ++ "{" ++ newline
            ++ pp_render stream (depth + 1) inner
            ++ spaces (Z.to_nat (depth + 1) * 4) ++ "}," ++ newline
            ++ pp_render stream depth rest)%string).
Proof.
  split.
  - intros stream c q x Hwd Hinst Hq Hrefl. split.
    + apply prettyPrint_leaf_lines_indented; assumption.
    + intros cout. apply prettyPrint_renders; assumption.
  - intros stream inner rest depth Hn. apply pp_render_block. assumption.
Qed.

Lemma prettyPrint_indents_by_depth_plus_one_witness :
  well_declared ManyPoints = true
  /\ instance_of ManyPoints manyPts = true
  /\ lvalue_object (q_quals (lref false ManyPoints)) = true
  /\ isReflectable (plain ManyPoints) = true
  /\ prettyPrint show (lref false ManyPoints) manyPts ""
     = Ok ("" ++ "{" ++ newline
           ++ pp_render show 0
                (spec_events ManyPoints (q_quals (lref false ManyPoints)) manyPts)
           ++ "}" ++ newline)%string.
Proof.
  do 4 (split; [reflexivity|]).
  apply (proj1 prettyPrint_indents_by_depth_plus_one show
               ManyPoints (q_quals (lref false ManyPoints)) manyPts);
    reflexivity.
Defined.





(** * Further properties of the header *)

(** ** The macros *)

(** X1 — [COUNT_ARGS] over every number of arguments: written with none it
    yields 1, with 1 to 32 arguments their number, and with more than 32
    the text of the 33rd argument instead of a number. *)
Theorem COUNT_ARGS_of_every_length :
  forall va : list string,
    Preprocessor.COUNT_ARGS va
    = if (length va =? 0)%nat
      then Some (inr 1)
      else if (length va <=? 32)%nat
           then Some (inr (Z.of_nat (length va)))
           else option_map inl (nth_error va 32).
Proof.
  intros va. destruct (Nat.eqb_spec (length va) 0) as [H0|H0].
  - destruct va; [reflexivity | discriminate H0].
  - destruct (Nat.leb_spec (length va) 32) as [Hle|Hgt].
    + apply PreprocessorFacts.COUNT_ARGS_counts. lia.
    + apply PreprocessorFacts.COUNT_ARGS_overflow. lia.
Qed.

(** X2 — the chain [APPLY_MACRO_TO_EACH_k]: a macro of the chain exists
    for [k] from 1 to 32 only, and it expands exactly when it is given [k]
    arguments; it then applies the macro to the arguments from left to
    right with the indices [index], [index + 1], ... *)
Theorem APPLY_MACRO_TO_EACH_chain_arity :
  forall (B : Type) (macro : string -> nat -> B) (k index : nat) (args : list string),
    (Preprocessor.APPLY_MACRO_TO_EACH_ k macro index args <> None
     <-> (1 <= k <= 32)%nat /\ length args = k)
    /\ (forall generated,
           Preprocessor.APPLY_MACRO_TO_EACH_ k macro index args = Some generated ->
           length generated = k
           /\ forall i a, nth_error args i = Some a ->
                          nth_error generated i = Some (macro a (index + i)%nat)).
Proof.
  intros B macro k.
  destruct (Nat.le_gt_cases k 32) as [Hk|Hk].
  2:{ intros index args.
      rewrite PreprocessorFacts.APPLY_MACRO_TO_EACH_undefined by lia.
      split; [split; [congruence | lia] | discriminate]. }
  revert Hk. induction k as [|k IH]; intros Hk index args.
  - split.
    + split; [intros H; exfalso; apply H; destruct args; reflexivity | lia].
    + intros generated H. destruct args; discriminate H.
  - rewrite PreprocessorFacts.APPLY_MACRO_TO_EACH_step by assumption.
    destruct args as [|a rest].
    + split.
      * split; [intros H; exfalso; apply H; destruct k; reflexivity
               | intros [_ H]; discriminate H].
      * intros generated H. destruct k; discriminate H.
    + destruct (IH ltac:(lia) (index + 1)%nat rest) as [IHiff IHgen].
      destruct k as [|k'].
      * destruct rest as [|b rest'].
        -- split.
           ++ split; [intros _; split; simpl; lia | discriminate].
           ++ intros generated H. inversion H; subst generated.
              split; [reflexivity|]. intros i a' Hnth.
              destruct i as [|i]; [|destruct i; discriminate Hnth].
              inversion Hnth; subst a'. rewrite Nat.add_0_r. reflexivity.
        -- split.
           ++ split; [intros H; exfalso; apply H; reflexivity
                     | intros [_ H]; discriminate H].
           ++ intros generated H. discriminate H.
      * destruct (Preprocessor.APPLY_MACRO_TO_EACH_ (Datatypes.S k') macro
                    (index + 1)%nat rest) as [more|] eqn:Hmore.
        -- assert (Hlen : (1 <= Datatypes.S k' <= 32)%nat
                          /\ length rest = Datatypes.S k')
             by (apply IHiff; discriminate).
           destruct (IHgen more eq_refl) as [Hmlen Hmnth].
           split.
           ++ split; [intros _; split; simpl; lia | discriminate].
           ++ intros generated H. inversion H; subst generated.
              split; [simpl; lia|]. intros i a' Hnth.
              destruct i as [|i].
              ** inversion Hnth; subst a'. rewrite Nat.add_0_r. reflexivity.
              ** simpl in Hnth |- *. rewrite (Hmnth i a' Hnth). f_equal. f_equal. lia.
        -- split.
           ++ split; [intros H; exfalso; apply H; reflexivity|].
              intros [_ H]. simpl in H. exfalso.
              assert (Hne : @None (list B) <> None)
                by (apply IHiff; split; [lia | lia]).
              apply Hne. reflexivity.
           ++ intros generated H. discriminate H.
Qed.

Lemma APPLY_MACRO_TO_EACH_chain_arity_witness :
  Preprocessor.APPLY_MACRO_TO_EACH_ 2 pair 5 ["a"; "b"]
  = Some [("a", 5%nat); ("b", 6%nat)]
  /\ length [("a", 5%nat); ("b", 6%nat)] = 2%nat.
Proof.
  split; [reflexivity|].
  apply (proj2 (APPLY_MACRO_TO_EACH_chain_arity _ pair 2 5 ["a"; "b"])
               [("a", 5%nat); ("b", 6%nat)] eq_refl).
Defined.

(** X3 — [APPLY_MACRO_TO_EACH] over every number of arguments: written with
    none it applies the macro once, to an empty argument with index 0; with
    1 to 32 arguments it applies it to each of them, in the order written,
    with the indices 0, 1, ...; with more than 32 it does not expand,
    because [GET_MACRO] then selects the 33rd argument as the macro to
    call. *)
Theorem APPLY_MACRO_TO_EACH_of_every_length :
  forall (B : Type) (macro : string -> nat -> B) (va : list string),
    Preprocessor.APPLY_MACRO_TO_EACH macro va
    = if (length va =? 0)%nat
      then Some [macro EmptyString 0%nat]
      else if (length va <=? 32)%nat
           then Some (map (fun p => macro (snd p) (fst p)) (enumerate va))
           else None.
Proof.
  intros B macro va. destruct (Nat.eqb_spec (length va) 0) as [H0|H0].
  - destruct va; [reflexivity | discriminate H0].
  - destruct (Nat.leb_spec (length va) 32) as [Hle|Hgt].
    + apply PreprocessorFacts.APPLY_MACRO_TO_EACH_expands. lia.
    + unfold Preprocessor.APPLY_MACRO_TO_EACH, Preprocessor.GET_MACRO.
      rewrite PreprocessorFacts.nth_32_of_overflow by lia.
      destruct (nth_error va 32) eqn:Hnth; [reflexivity|].
      apply nth_error_None in Hnth. lia.
Qed.

(** ** The declaration *)

(** X4 — what [REFLECTABLE(...)] accepts: exactly the lists of 1 to 31
    non-empty names; an accepted declaration has the number of names as its
    field count and one descriptor specialisation per name, under the
    indices 0, 1, ... in the order written (a name may be listed twice). *)
Theorem REFLECTABLE_accepts_exactly :
  forall (va : list string) (m : reflection_members),
    REFLECTABLE va = Ok m
    <-> (1 <= length va <= 31)%nat
        /\ Forall (fun a => a <> EmptyString) va
        /\ m = {| _reflection_fields_n := Z.of_nat (length va);
                  FieldData_specializations := enumerate va |}.
Proof.
  intros va m. split.
  - apply REFLECTABLE_Ok_inv.
  - intros [Hlen [Hne ->]]. apply REFLECTABLE_accepts; assumption.
Qed.

Lemma REFLECTABLE_accepts_exactly_witness :
  REFLECTABLE ["x"; "x"]
  = Ok {| _reflection_fields_n := 2;
          FieldData_specializations := [(0%nat, "x"); (1%nat, "x")] |}
  /\ (1 <= length ["x"; "x"] <= 31)%nat.
Proof.
  split; [reflexivity|].
  apply (proj1 (REFLECTABLE_accepts_exactly ["x"; "x"]
                  {| _reflection_fields_n := 2;
                     FieldData_specializations := [(0%nat, "x"); (1%nat, "x")] |})
               eq_refl).
Defined.

(** ** The capability query *)

Lemma getFieldData_out_of_range (cn : string) (ms : list (string * ty))
      (va : list string) (q : qualifiers) (x : value) (N : nat) :
  well_declared (Class cn ms (Some va)) = true ->
  (length va <= N)%nat ->
  query.getFieldData N {| q_base := Class cn ms (Some va); q_quals := q |} x
  = Rejected (ill_formed "FieldData<N, T> is the empty primary template").
Proof.
  intros Hwd HN. destruct (well_declared_reflectable _ _ _ Hwd) as [HR _].
  unfold query.getFieldData. rewrite base_of_remove_cvref.
  cbn [static_members]. rewrite HR. cbn [bind FieldData_specializations].
  rewrite lookup_index_enumerate.
  destruct (nth_error va N) eqn:Hnth; [|reflexivity].
  assert (N < length va)%nat by (apply nth_error_Some; rewrite Hnth; discriminate).
  lia.
Qed.

(** X5 — descriptor lookup by ordinal.  On an lvalue of a reflectable class
    of a program that compiles, [getFieldData<N>] yields a descriptor
    exactly for the ordinals below the field count; an ordinal at or above
    it names the empty primary template [FieldData] and is rejected.  On a
    type that is not reflectable the field count and every descriptor are
    rejected. *)
Theorem getFieldData_exactly_below_the_count :
  (forall (cn : string) (ms : list (string * ty)) (va : list string)
          (q : qualifiers) (x : value) (N : nat),
      well_declared (Class cn ms (Some va)) = true ->
      q_ref q = lvalue_ref ->
      is_ok (query.getFieldData N {| q_base := Class cn ms (Some va); q_quals := q |} x)
      = (N <? length va)%nat
      /\ ((length va <= N)%nat ->
          query.getFieldData N {| q_base := Class cn ms (Some va); q_quals := q |} x
          = Rejected (ill_formed "FieldData<N, T> is the empty primary template")))
  /\ (forall (T : qtype) (x : value) (N : nat),
         isReflectable T = false ->
         getNumberOfFields T
         = Rejected (ill_formed "no member named _reflection_fields_n")
         /\ query.getFieldData N T x
            = Rejected (ill_formed "no member named _reflection_fields_n")).
Proof.
  split.
  - intros cn ms va q x N Hwd Hq. split.
    + destruct (Nat.ltb_spec N (length va)) as [Hlt|Hge].
      * destruct (well_declared_reflectable _ _ _ Hwd) as [HR [Hlen Hmem]].
        destruct (nth_error va N) as [dm|] eqn:Hnth;
          [|apply nth_error_None in Hnth; lia].
        destruct (Hmem N dm Hnth) as [U HU].
        unfold query.getFieldData. rewrite base_of_remove_cvref.
        cbn [static_members]. rewrite HR. cbn [bind FieldData_specializations].
        rewrite lookup_index_enumerate, Hnth. cbn [bind].
        rewrite base_of_decay.
        unfold member_type. rewrite with_member_type_lookup, HU. cbn [bind].
        unfold add_rvalue_reference_t. cbn [q_quals]. rewrite Hq.
        cbn [q_quals]. rewrite Hq. reflexivity.
      * rewrite getFieldData_out_of_range by assumption. reflexivity.
    + intros HN. apply getFieldData_out_of_range; assumption.
  - intros [c q] x N HT.
    unfold isReflectable, query.reflectable in HT.
    rewrite base_of_remove_cvref in HT.
    unfold getNumberOfFields, query.getNumberOfFields, query.getFieldData.
    rewrite base_of_remove_cvref.
    destruct c as [tn | cn ms [va|]]; try discriminate HT; split; reflexivity.
Qed.

Lemma getFieldData_exactly_below_the_count_witness :
  well_declared Data = true
  /\ q_ref (q_quals (lref true Data)) = lvalue_ref
  /\ is_ok (query.getFieldData 2 (lref true Data)
              (Object [("foo", Scalar 1); ("bar", Scalar 2); ("baz", Scalar 3)]))
     = false
  /\ isReflectable (plain Opaque) = false
  /\ getNumberOfFields (plain Opaque)
     = Rejected (ill_formed "no member named _reflection_fields_n").
Proof.
  do 2 (split; [reflexivity|]). split.
  - apply (proj1 (proj1 getFieldData_exactly_below_the_count
                        "Data"
                        [("foo", Fundamental "std::string");
                         ("bar", Fundamental "std::vector<int>");
                         ("baz", Fundamental "std::unordered_set<float>")]
                        ["foo"; "baz"] (q_quals (lref true Data))
                        (Object [("foo", Scalar 1); ("bar", Scalar 2); ("baz", Scalar 3)])
                        2%nat eq_refl eq_refl)).
  - split; [reflexivity|].
    apply (proj1 (proj2 getFieldData_exactly_below_the_count (plain Opaque)
                        (Scalar 0) 0%nat eq_refl)).
Defined.

(** X6 — an instance that is not passed as an lvalue cannot be reflected:
    for [T] deduced as a non-reference type (a temporary) or given as an
    rvalue reference, no ordinal has a descriptor, because the constructor
    of [FieldData] initialises its member [Object&& self] from the named
    parameter [self]; so every [visit] of a reflectable class of a program
    that compiles is rejected for such an instance. *)
Theorem temporaries_are_rejected :
  (forall (N : nat) (T : qtype) (x : value),
      q_ref (q_quals T) <> lvalue_ref ->
      is_ok (query.getFieldData N T x) = false)
  /\ (forall (S : Type) (func : FieldData -> S -> result S)
             (enterFunc exitFunc : S -> S) (c : ty) (q : qualifiers) (x : value) (s : S),
         well_declared c = true ->
         isReflectable (plain c) = true ->
         q_ref q <> lvalue_ref ->
         visit_with_hooks func enterFunc exitFunc {| q_base := c; q_quals := q |} x s
         = Rejected (ill_formed "cannot bind an rvalue reference to an lvalue")).
Proof.
  split.
  - intros N T x HT. destruct (query.getFieldData N T x) as [d|e] eqn:Hd;
      [|reflexivity].
    destruct (getFieldData_Ok_inv _ _ _ _ Hd) as [_ [_ [_ [_ [_ [_ [_ [Hq _]]]]]]]].
    contradiction.
  - intros S func enterFunc exitFunc c q x s Hwd Hrefl Hq.
    destruct c as [tn | cn ms [va|]]; try discriminate Hrefl.
    destruct (well_declared_reflectable _ _ _ Hwd) as [HR [Hlen Hmem]].
    unfold visit_with_hooks. rewrite isReflectable_base, Hrefl.
    cbn [static_assert bind q_base]. unfold iterateThroughMember.
    rewrite query_getNumberOfFields_declared by assumption. cbn [bind].
    rewrite make_integer_sequence_of_nat. cbn [bind].
    destruct va as [|dm rest]; [simpl in Hlen; lia|].
    destruct (Hmem 0%nat dm eq_refl) as [U HU].
    cbn [length seq forEach]. unfold query.getFieldData.
    rewrite base_of_remove_cvref. cbn [static_members]. rewrite HR.
    cbn [bind FieldData_specializations].
    rewrite lookup_index_enumerate. cbn [nth_error bind].
    rewrite base_of_decay. unfold member_type.
    rewrite with_member_type_lookup, HU. cbn [bind].
    unfold add_rvalue_reference_t. cbn [q_quals].
    destruct (q_ref q) eqn:Hq'; cbn [q_quals q_ref]; rewrite ?Hq';
      try reflexivity.
    contradiction.
Qed.

Lemma temporaries_are_rejected_witness :
  q_ref (q_quals (plain Point)) <> lvalue_ref
  /\ is_ok (query.getFieldData 0 (plain Point) (point 1 2)) = false.
Proof.
  assert (H : q_ref (q_quals (plain Point)) <> lvalue_ref) by discriminate.
  split; [exact H|].
  apply (proj1 temporaries_are_rejected 0%nat (plain Point) (point 1 2) H).
Defined.

(** ** One level of iteration *)

Lemma combine_map_snd_seq {A} (l : list A) (start : nat) :
  map snd (combine (seq start (length l)) l) = l.
Proof.
  revert start. induction l as [|a rest IH]; intros start; simpl;
    [reflexivity | rewrite IH; reflexivity].
Qed.

Lemma combine_map_fst_seq {A} (l : list A) (start : nat) :
  map fst (combine (seq start (length l)) l) = seq start (length l).
Proof.
  revert start. induction l as [|a rest IH]; intros start; simpl;
    [reflexivity | rewrite IH; reflexivity].
Qed.

Lemma forEach_descriptors {S} (T : qtype) (x : value)
      (callback : FieldData -> S -> result S) :
  forall (va : list string) (start : nat) (s : S),
    (forall N dm, nth_error va N = Some dm ->
                  query.getFieldData (start + N) T x
                  = Ok {| fd_index := start + N; fd_Object := T;
                          fd_dataMember := dm; fd_self := x |}) ->
    forEach T x callback (seq start (length va)) s
    = run_leaves callback
        (map (fun p => {| fd_index := fst p; fd_Object := T;
                          fd_dataMember := snd p; fd_self := x |})
             (combine (seq start (length va)) va)) s.
Proof.
  induction va as [|a rest IH]; intros start s H; [reflexivity|].
  cbn [length seq forEach combine map run_leaves].
  pose proof (H 0%nat a eq_refl) as H0. rewrite Nat.add_0_r in H0.
  rewrite H0. cbn [bind]. cbn [fst snd].
  destruct (callback _ s) as [s'|e]; [|reflexivity]. cbn [bind].
  apply IH. intros N dm Hnth.
  replace (Datatypes.S start + N)%nat with (start + Datatypes.S N)%nat by lia.
  apply H. exact Hnth.
Qed.

(** X9 — [iterateThroughMember] on an lvalue of a reflectable class of a
    program that compiles: the callback is called once per listed member,
    in listing order, on that member's descriptor (index, name, the object
    itself), composite members included and not descended into, each call
    on the state the previous one returned; a call that is rejected ends
    the iteration. *)
Theorem iterateThroughMember_calls_once_per_listed_member :
  forall (cn : string) (ms : list (string * ty)) (va : list string)
         (q : qualifiers) (x : value),
    well_declared (Class cn ms (Some va)) = true ->
    q_ref q = lvalue_ref ->
    (forall (S : Type) (callback : FieldData -> S -> result S) (s : S),
        iterateThroughMember {| q_base := Class cn ms (Some va); q_quals := q |} x
                             callback s
        = run_leaves callback
            (top_descriptors {| q_base := Class cn ms (Some va); q_quals := q |} va x)
            s)
    /\ map name (top_descriptors {| q_base := Class cn ms (Some va); q_quals := q |} va x)
       = va
    /\ map fd_index
           (top_descriptors {| q_base := Class cn ms (Some va); q_quals := q |} va x)
       = seq 0 (length va).
Proof.
  intros cn ms va q x Hwd Hq. split; [|split].
  - intros S callback s. unfold iterateThroughMember.
    rewrite query_getNumberOfFields_declared by assumption. cbn [bind].
    rewrite make_integer_sequence_of_nat. cbn [bind].
    unfold top_descriptors, enumerate. apply forEach_descriptors.
    intros N dm Hnth. cbn [Nat.add].
    destruct (well_declared_reflectable _ _ _ Hwd) as [HR [Hlen Hmem]].
    destruct (Hmem N dm Hnth) as [U HU].
    unfold query.getFieldData. rewrite base_of_remove_cvref.
    cbn [static_members]. rewrite HR. cbn [bind FieldData_specializations].
    rewrite lookup_index_enumerate, Hnth. cbn [bind].
    rewrite base_of_decay.
    unfold member_type. rewrite with_member_type_lookup, HU. cbn [bind].
    unfold add_rvalue_reference_t. cbn [q_quals]. rewrite Hq.
    cbn [q_quals]. rewrite Hq. reflexivity.
  - unfold top_descriptors, enumerate. rewrite map_map. cbn [name fd_dataMember].
    rewrite <- (map_map snd (fun a => a)), map_id.
    apply combine_map_snd_seq.
  - unfold top_descriptors, enumerate. rewrite map_map. cbn [fd_index].
    apply combine_map_fst_seq.
Qed.

Lemma iterateThroughMember_calls_once_per_listed_member_witness :
  well_declared R1 = true
  /\ q_ref (q_quals (lref false R1)) = lvalue_ref
  /\ iterateThroughMember (lref false R1) r1
       (fun d log => Ok (log ++ [name d])) []
     = run_leaves (fun d log => Ok (log ++ [name d]))
         (top_descriptors (lref false R1) ["a"; "b"] r1) [].
Proof.
  do 2 (split; [reflexivity|]).
  apply (proj1 (iterateThroughMember_calls_once_per_listed_member
                  "R1" [("a", int); ("b", R2)] ["a"; "b"]
                  (q_quals (lref false R1)) r1 eq_refl eq_refl)).
Defined.

(** ** The calls depend on the class only *)

Lemma run_log_calls (events : list event) (log : list call) :
  run log_call_leaf log_call_enter log_call_exit events log
  = Ok (log ++ map call_of events).
Proof.
  revert log. induction events as [|e rest IH]; intros log; simpl.
  - rewrite app_nil_r. reflexivity.
  - destruct e; simpl; rewrite IH; unfold log_call_enter, log_call_exit;
      rewrite <- app_assoc; reflexivity.
Qed.

Lemma calls_of_spec_events : forall (c : ty) (q : qualifiers) (x : value),
    well_declared c = true ->
    instance_of c x = true ->
    lvalue_object q = true ->
    map call_of (spec_events c q x) = type_calls c.
Proof.
  induction c as [tn | cn ms args IH] using ty_ind; intros q x Hwd Hinst Hq;
    [reflexivity|].
  destruct args as [va|]; [|reflexivity].
  rewrite spec_events_unfold, getNumberOfFields_declared, Nat2Z.id by assumption.
  cbn [type_calls]. rewrite map_flat_map_commute.
  apply flat_map_seq_nth. intros N dm Hnth.
  destruct (field_facts cn ms va q x N Hwd Hinst Hq) as
      [dm' [U [v [Hnth' [HU [Hfd [Hget [HwU HiU]]]]]]]].
  { apply nth_error_Some. rewrite Hnth. discriminate. }
  rewrite Hnth in Hnth'. inversion Hnth'; subst dm'.
  unfold spec_field. rewrite Hfd. cbn [fd_dataMember].
  rewrite !with_member_type_lookup, HU.
  destruct (isReflectable (plain U)); [|reflexivity].
  rewrite Hget. cbn [ref_to so_value map]. rewrite map_app. cbn [map call_of].
  rewrite Forall_forall in IH. destruct (lookup_In _ _ _ HU) as [n' Hin].
  rewrite (IH (n', U) Hin) by (try assumption; reflexivity).
  reflexivity.
Qed.

Lemma visit_calls (c : ty) (q : qualifiers) (x : value) :
  well_declared c = true ->
  instance_of c x = true ->
  lvalue_object q = true ->
  isReflectable (plain c) = true ->
  visit_with_hooks log_call_leaf log_call_enter log_call_exit
                   {| q_base := c; q_quals := q |} x []
  = Ok (type_calls c).
Proof.
  intros Hwd Hinst Hq Hrefl.
  rewrite visit_with_hooks_events by assumption.
  rewrite run_log_calls, calls_of_spec_events by assumption. reflexivity.
Qed.

(** ** The lookup of [_internal_visit] from the lambda of [visit] *)

Lemma forEach_ext {S} (T : qtype) (x : value)
      (callback1 callback2 : FieldData -> S -> result S) :
  forall (ints : list nat) (s : S),
    (forall N d s', In N ints -> query.getFieldData N T x = Ok d ->
                    callback1 d s' = callback2 d s') ->
    forEach T x callback1 ints s = forEach T x callback2 ints s.
Proof.
  induction ints as [|N rest IH]; intros s H; [reflexivity|].
  cbn [forEach].
  destruct (query.getFieldData N T x) as [d|e] eqn:Hd; [|reflexivity].
  cbn [bind]. rewrite (H N d s (or_introl eq_refl) Hd).
  destruct (callback2 d s) as [s'|e]; [|reflexivity]. cbn [bind].
  apply IH. intros N' d' s'' HN'. apply H. right. assumption.
Qed.

(** Where the name is found for every composite member the class lists,
    [visit] is the traversal of [visit_with_hooks]. *)
Lemma visit_with_hooks_by_lookup_found {S} (func : FieldData -> S -> result S)
      (enterFunc exitFunc : S -> S) (associated : ty -> bool)
      (T : qtype) (x : value) (s : S) :
  lookup_succeeds associated (q_base T) = true ->
  visit_with_hooks_by_lookup func enterFunc exitFunc associated T x s
  = visit_with_hooks func enterFunc exitFunc T x s.
Proof.
  intros Hfound. unfold visit_with_hooks_by_lookup, visit_with_hooks.
  destruct (static_assert (isReflectable T) not_reflectable_message);
    [|reflexivity].
  cbn [bind]. unfold iterateThroughMember.
  destruct (query.getNumberOfFields T) as [n|e]; [|reflexivity]. cbn [bind].
  destruct (make_integer_sequence n) as [ints|e]; [|reflexivity]. cbn [bind].
  apply forEach_ext. intros N d s' _ Hd.
  destruct (getFieldData_Ok_inv _ _ _ _ Hd) as [cn [ms [va [U [Hc [Hnth [HU _]]]]]]].
  rewrite Hc in *. unfold field_lambda.
  rewrite !with_member_type_lookup, HU.
  destruct (isReflectable (plain U)) eqn:HrU; [|reflexivity].
  destruct (get d) as [r|e]; [|reflexivity]. cbn [bind].
  unfold lookup__internal_visit.
  cbn [lookup_succeeds] in Hfound. rewrite forallb_forall in Hfound.
  specialize (Hfound _ (nth_error_In _ _ Hnth)).
  rewrite HU, HrU in Hfound. cbn [negb orb] in Hfound.
  rewrite Hfound. reflexivity.
Qed.

(** Where it is not found for one of them, [visit] is rejected, whatever
    the callbacks that return. *)
Lemma forEach_lookup_not_found {S} (leafFunc : FieldData -> S -> S)
      (enterFunc exitFunc : S -> S) (associated : ty -> bool)
      (cn : string) (ms : list (string * ty)) (listed : list string)
      (q : qualifiers) (x : value) :
  well_declared (Class cn ms (Some listed)) = true ->
  instance_of (Class cn ms (Some listed)) x = true ->
  lvalue_object q = true ->
  forall (va : list string) (start : nat) (s : S),
    (forall N dm, nth_error va N = Some dm ->
                  nth_error listed (start + N) = Some dm) ->
    forallb (fun dataMember =>
               match lookup dataMember ms with
               | Some type => negb (isReflectable (plain type)) || associated type
               | None => true
               end) va = false ->
    forEach {| q_base := Class cn ms (Some listed); q_quals := q |} x
            (field_lambda (fun d s => Ok (leafFunc d s))
                          (lookup__internal_visit (fun d s => Ok (leafFunc d s))
                                                  enterFunc exitFunc associated)
                          (Class cn ms (Some listed)))
            (seq start (length va)) s
    = Rejected _internal_visit_not_declared.
Proof.
  intros Hwd Hinst Hq.
  induction va as [|a rest IH]; intros start s Hsub Hall; [discriminate Hall|].
  pose proof (Hsub 0%nat a eq_refl) as Ha. rewrite Nat.add_0_r in Ha.
  destruct (field_facts cn ms listed q x start Hwd Hinst Hq) as
      [dm [U [v [Hnth [HU [Hfd [Hget [HwU HiU]]]]]]]].
  { apply nth_error_Some. rewrite Ha. discriminate. }
  rewrite Ha in Hnth. inversion Hnth; subst dm.
  cbn [length seq forEach]. rewrite Hfd. cbn [bind].
  unfold field_lambda at 1. cbn [fd_dataMember].
  rewrite with_member_type_lookup, HU.
  cbn [forallb] in Hall. rewrite HU in Hall.
  assert (Hrest : forall N dm, nth_error rest N = Some dm ->
                               nth_error listed (Datatypes.S start + N) = Some dm).
  { intros N dm Hdm.
    replace (Datatypes.S start + N)%nat with (start + Datatypes.S N)%nat by lia.
    apply Hsub. exact Hdm. }
  destruct (isReflectable (plain U)) eqn:HrU.
  - rewrite Hget. cbn [bind ref_to so_value].
    unfold lookup__internal_visit at 1.
    destruct (associated U) eqn:HaU; [|reflexivity].
    cbn [negb orb andb] in Hall.
    rewrite _internal_visit_unfold.
    rewrite iterateThroughMember_events by (try assumption; reflexivity).
    destruct (run_total leafFunc enterFunc exitFunc
                (spec_events U (deduce_from_reference
                                  {| ref_access := read_only;
                                     ref_to := {| so_member := a; so_value := v |} |}) v)
                (enterFunc s)) as [s' Hrun].
    rewrite Hrun. cbn [bind]. apply IH; assumption.
  - cbn [bind negb orb andb] in Hall |- *. apply IH; assumption.
Qed.

Lemma visit_with_hooks_by_lookup_not_found {S} (leafFunc : FieldData -> S -> S)
      (enterFunc exitFunc : S -> S) (associated : ty -> bool)
      (c : ty) (q : qualifiers) (x : value) (s : S) :
  well_declared c = true ->
  instance_of c x = true ->
  lvalue_object q = true ->
  isReflectable (plain c) = true ->
  lookup_succeeds associated c = false ->
  visit_with_hooks_by_lookup (fun d s => Ok (leafFunc d s)) enterFunc exitFunc
                             associated {| q_base := c; q_quals := q |} x s
  = Rejected _internal_visit_not_declared.
Proof.
  intros Hwd Hinst Hq Hrefl Hnot.
  destruct c as [tn | cn ms [va|]]; try discriminate Hrefl.
  unfold visit_with_hooks_by_lookup.
  rewrite isReflectable_base, Hrefl. cbn [static_assert bind q_base].
  unfold iterateThroughMember.
  rewrite query_getNumberOfFields_declared by assumption. cbn [bind].
  rewrite make_integer_sequence_of_nat. cbn [bind].
  apply forEach_lookup_not_found; try assumption.
  intros N dm Hdm. exact Hdm.
Qed.

(** X10 — whether the hook-augmented [visit] is accepted, and which
    callbacks it then calls, in which order and for which member names, is
    decided at translation by the class and by the lookup of
    [_internal_visit] alone.  On an lvalue of a reflectable class of a
    program that compiles: when the name is found for every composite
    member the class lists, the calls are the ones [type_calls] reads off
    the class; when it is not, the call of [visit] is rejected; and any
    two lvalue instances, const or not, give the same. *)
Theorem calls_do_not_depend_on_the_instance :
  forall (associated : ty -> bool) (c : ty) (q q' : qualifiers) (x y : value),
    well_declared c = true ->
    isReflectable (plain c) = true ->
    instance_of c x = true ->
    instance_of c y = true ->
    lvalue_object q = true ->
    lvalue_object q' = true ->
    visit_with_hooks_by_lookup log_call_leaf log_call_enter log_call_exit associated
                               {| q_base := c; q_quals := q |} x []
    = (if lookup_succeeds associated c
       then Ok (type_calls c)
       else Rejected _internal_visit_not_declared)
    /\ visit_with_hooks_by_lookup log_call_leaf log_call_enter log_call_exit associated
                                  {| q_base := c; q_quals := q' |} y []
       = visit_with_hooks_by_lookup log_call_leaf log_call_enter log_call_exit associated
                                    {| q_base := c; q_quals := q |} x [].
Proof.
  intros associated c q q' x y Hwd Hrefl Hx Hy Hq Hq'.
  assert (H : forall (p : qualifiers) (z : value),
             instance_of c z = true -> lvalue_object p = true ->
             visit_with_hooks_by_lookup log_call_leaf log_call_enter log_call_exit
                                        associated {| q_base := c; q_quals := p |} z []
             = (if lookup_succeeds associated c
                then Ok (type_calls c)
                else Rejected _internal_visit_not_declared)).
  { intros p z Hz Hp. destruct (lookup_succeeds associated c) eqn:Hfound.
    - rewrite visit_with_hooks_by_lookup_found by exact Hfound.
      apply visit_calls; assumption.
    - apply (visit_with_hooks_by_lookup_not_found
               (fun d log => log ++ [call_leaf (name d)])); assumption. }
  split; [apply H; assumption|].
  rewrite !H by assumption. reflexivity.
Qed.

Lemma calls_do_not_depend_on_the_instance_witness :
  well_declared R1 = true
  /\ isReflectable (plain R1) = true
  /\ instance_of R1 r1 = true
  /\ instance_of R1 (Object [("a", Scalar 0); ("b", Object [("c", Scalar 0); ("d", Scalar 0)])])
     = true
  /\ lvalue_object (q_quals (lref false R1)) = true
  /\ lvalue_object (q_quals (lref true R1)) = true
  /\ visit_with_hooks_by_lookup log_call_leaf log_call_enter log_call_exit of_the_caller
                                (lref false R1) r1 []
     = Rejected _internal_visit_not_declared
  /\ visit_with_hooks_by_lookup log_call_leaf log_call_enter log_call_exit of_the_header
                                (lref false R1) r1 []
     = Ok (type_calls R1).
Proof.
  do 6 (split; [reflexivity|]). split.
  - apply (calls_do_not_depend_on_the_instance
             of_the_caller R1 (q_quals (lref false R1)) (q_quals (lref true R1)) r1
             (Object [("a", Scalar 0); ("b", Object [("c", Scalar 0); ("d", Scalar 0)])])
             eq_refl eq_refl eq_refl eq_refl eq_refl eq_refl).
  - apply (calls_do_not_depend_on_the_instance
             of_the_header R1 (q_quals (lref false R1)) (q_quals (lref true R1)) r1
             (Object [("a", Scalar 0); ("b", Object [("c", Scalar 0); ("d", Scalar 0)])])
             eq_refl eq_refl eq_refl eq_refl eq_refl eq_refl).
Defined.

(** ** Every reflectable class has a leaf *)

Lemma leaf_paths_exist : forall c : ty,
    well_declared c = true ->
    isReflectable (plain c) = true ->
    leaf_paths c <> [].
Proof.
  induction c as [tn | cn ms args IH] using ty_ind; intros Hwd Hrefl;
    [discriminate Hrefl|].
  destruct args as [va|]; [|discriminate Hrefl].
  destruct (well_declared_reflectable _ _ _ Hwd) as [_ [Hlen Hmem]].
  destruct va as [|dm rest]; [simpl in Hlen; lia|].
  destruct (Hmem 0%nat dm eq_refl) as [U HU].
  cbn [leaf_paths flat_map]. rewrite with_member_type_lookup, HU.
  destruct (isReflectable (plain U)) eqn:HrU.
  - rewrite Forall_forall in IH. destruct (lookup_In _ _ _ HU) as [n' Hin].
    pose proof (IH (n', U) Hin (well_declared_member _ _ _ _ _ Hwd HU) HrU) as HneU.
    cbn [snd] in HneU. destruct (leaf_paths U); [congruence | discriminate].
  - discriminate.
Qed.

Lemma visit_logs_spec_leaves (c : ty) (q : qualifiers) (x : value) :
  well_declared c = true ->
  instance_of c x = true ->
  lvalue_object q = true ->
  isReflectable (plain c) = true ->
  visit (fun d log => Ok (log ++ [d])) {| q_base := c; q_quals := q |} x []
  = Ok (spec_leaves c q x).
Proof.
  intros Hwd Hinst Hq Hrefl. unfold visit.
  rewrite visit_with_hooks_events by assumption.
  rewrite run_without_hooks, leaves_of_spec_events.
  apply (run_leaves_log _ []).
Qed.

(** X11 — [visit] never passes over an instance without calling the leaf
    callback: every reflectable class of a program that compiles lists at
    least one member, and so does every class it nests, so at least one
    leaf is reached. *)
Theorem visit_reaches_at_least_one_leaf :
  forall (c : ty) (q : qualifiers) (x : value),
    well_declared c = true ->
    instance_of c x = true ->
    lvalue_object q = true ->
    isReflectable (plain c) = true ->
    exists d rest,
      visit (fun d log => Ok (log ++ [d])) {| q_base := c; q_quals := q |} x []
      = Ok (d :: rest).
Proof.
  intros c q x Hwd Hinst Hq Hrefl.
  rewrite visit_logs_spec_leaves by assumption.
  pose proof (spec_leaves_paths c q x Hwd Hinst Hq) as Hpaths.
  pose proof (leaf_paths_exist c Hwd Hrefl) as Hne.
  destruct (spec_leaves c q x) as [|d rest]; [|eauto].
  exfalso. apply Hne. simpl in Hpaths. symmetry in Hpaths.
  apply map_eq_nil in Hpaths. exact Hpaths.
Qed.

Lemma visit_reaches_at_least_one_leaf_witness :
  well_declared Points = true
  /\ instance_of Points (points (point 1 2) (point 3 4) (point 5 6)) = true
  /\ lvalue_object (q_quals (lref true Points)) = true
  /\ isReflectable (plain Points) = true
  /\ exists d rest,
      visit (fun d log => Ok (log ++ [d])) (lref true Points)
            (points (point 1 2) (point 3 4) (point 5 6)) []
      = Ok (d :: rest).
Proof.
  do 4 (split; [reflexivity|]).
  apply (visit_reaches_at_least_one_leaf
           Points (q_quals (lref true Points))
           (points (point 1 2) (point 3 4) (point 5 6))
           eq_refl eq_refl eq_refl eq_refl).
Defined.

(** ** The depth prettyPrint keeps *)

Lemma leaf_depths_app (a b : list event) (depth : Z) :
  leaf_depths depth (a ++ b)
  = leaf_depths depth a ++ leaf_depths (depth_after depth a) b.
Proof.
  revert depth. induction a as [|e rest IH]; intros depth; [reflexivity|].
  destruct e; cbn [app leaf_depths depth_after]; rewrite IH; reflexivity.
Qed.

Lemma leaf_depths_flat_map {A} (f : A -> list event) (l : list A) (depth : Z) :
  (forall a, In a l -> nested (f a)) ->
  leaf_depths depth (flat_map f l) = flat_map (fun a => leaf_depths depth (f a)) l.
Proof.
  induction l as [|a rest IH]; intros H; [reflexivity|].
  cbn [flat_map]. rewrite leaf_depths_app.
  rewrite (depth_after_nested (f a) (H a (or_introl eq_refl))).
  rewrite IH; [reflexivity|]. intros a' Ha'. apply H. right. assumption.
Qed.

Lemma spec_field_nested (c : ty) (q : qualifiers) (x : value) (N : nat) :
  nested (spec_field spec_events c q x N).
Proof.
  unfold spec_field. destruct (query.getFieldData N _ x) as [d|e]; [|constructor].
  destruct c as [tn | cn ms args]; [constructor|].
  rewrite with_member_type_lookup.
  destruct (lookup (fd_dataMember d) ms) as [U|]; [|constructor].
  destruct (isReflectable (plain U)).
  - destruct (get d) as [r|e]; [|constructor].
    apply (nested_block _ []); [apply spec_events_nested | constructor].
  - repeat constructor.
Qed.

Lemma nesting_of_member (cn : string) (ms : list (string * ty)) (va : list string)
      (dm : string) (U : ty) :
  In dm va ->
  lookup dm ms = Some U ->
  (nesting U < nesting (Class cn ms (Some va)))%nat.
Proof.
  intros Hin HU. cbn [nesting].
  assert (Hall : Forall (fun k => (k <= list_max
                   (map (fun dataMember =>
                           with_member_type (Class cn ms (Some va)) dataMember
                                            (fun type => nesting type) 0%nat) va))%nat)
                  (map (fun dataMember =>
                          with_member_type (Class cn ms (Some va)) dataMember
                                           (fun type => nesting type) 0%nat) va))
    by (apply list_max_le; lia).
  rewrite Forall_forall in Hall.
  specialize (Hall (nesting U)).
  assert (Hmem : In (nesting U)
                    (map (fun dataMember =>
                            with_member_type (Class cn ms (Some va)) dataMember
                                             (fun type => nesting type) 0%nat) va)).
  { apply in_map_iff. exists dm. split; [|assumption].
    rewrite with_member_type_lookup, HU. reflexivity. }
  specialize (Hall Hmem). lia.
Qed.

(** At every leaf call the depth lies between the depth at the start and
    that depth plus the nesting of the class, the latter excluded. *)
Lemma leaf_depths_bounded : forall (c : ty) (q : qualifiers) (x : value) (depth : Z),
    well_declared c = true ->
    instance_of c x = true ->
    lvalue_object q = true ->
    Forall (fun d => depth <= d < depth + Z.of_nat (nesting c))
           (leaf_depths depth (spec_events c q x)).
Proof.
  induction c as [tn | cn ms args IH] using ty_ind; intros q x depth Hwd Hinst Hq;
    [apply Forall_nil|].
  destruct args as [va|]; [|apply Forall_nil].
  rewrite spec_events_unfold, getNumberOfFields_declared, Nat2Z.id by assumption.
  rewrite leaf_depths_flat_map by (intros N _; apply spec_field_nested).
  apply Forall_flat_map, Forall_forall. intros N HN. apply in_seq in HN.
  destruct (field_facts cn ms va q x N Hwd Hinst Hq) as
      [dm [U [v [Hnth [HU [Hfd [Hget [HwU HiU]]]]]]]]; [lia|].
  pose proof (nesting_of_member cn ms va dm U (nth_error_In _ _ Hnth) HU) as Hlt.
  unfold spec_field. rewrite Hfd. cbn [fd_dataMember].
  rewrite with_member_type_lookup, HU.
  destruct (isReflectable (plain U)).
  - rewrite Hget. cbn [ref_to so_value leaf_depths].
    rewrite leaf_depths_app. cbn [leaf_depths]. rewrite app_nil_r.
    rewrite Forall_forall in IH. destruct (lookup_In _ _ _ HU) as [n' Hin].
    eapply Forall_impl; [|apply (IH (n', U) Hin); try assumption; reflexivity].
    cbn [snd]. intros d Hd. lia.
  - cbn [leaf_depths]. constructor; [lia | constructor].
Qed.

Section PrettyPrintDepth.

Variable stream : value -> string.

(** The depths the logged run writes down are those of the trace. *)
Lemma run_logged_depths : forall (events : list event) (s : pp_state)
                                 (log : list (leaf_line)),
    Forall readable (leaves_of events) ->
    exists s' log',
      run (logged_leaf stream) logged_enter logged_exit events (s, log)
      = Ok (s', log ++ log')
      /\ map (fun l : leaf_line => fst (fst l)) log' = leaf_depths (fst s) events.
Proof.
  induction events as [|e rest IH]; intros s log Hr.
  - exists s, []. rewrite app_nil_r. split; reflexivity.
  - destruct e as [d| |]; cbn [run leaves_of leaf_depths] in *.
    + inversion Hr as [|? ? [v Hd] Hrest]; subst.
      destruct s as [depth cout].
      pose proof (logged_leaf_writes stream d depth cout log _ Hd) as Hw.
      match type of Hw with
      | _ = Ok (?s1, log ++ [?l]) =>
          destruct (IH s1 (log ++ [l]) Hrest) as [s' [log' [Hrun Hdepths]]];
          exists s', (l :: log')
      end.
      split.
      * unfold pp_state in *. rewrite Hw. cbn [bind].
        rewrite Hrun, <- app_assoc. reflexivity.
      * cbn [map fst snd] in *. rewrite Hdepths. reflexivity.
    + destruct s as [depth cout].
      destruct (IH (prettyPrint_enter (depth, cout)) log Hr) as [s' [log' [Hrun Hd]]].
      exists s', log'. split; [exact Hrun|].
      rewrite Hd, prettyPrint_enter_writes. reflexivity.
    + destruct s as [depth cout].
      destruct (IH (prettyPrint_exit (depth, cout)) log Hr) as [s' [log' [Hrun Hd]]].
      exists s', log'. split; [exact Hrun|].
      rewrite Hd, prettyPrint_exit_writes. reflexivity.
Qed.

End PrettyPrintDepth.

(** X12 — the counter of prettyPrint: at every leaf line [recursionDepth] is
    at least 0 and below the nesting of the class (how deep reflectable
    classes are nested in it by their listed members), whatever the
    instance; and when the traversal returns the counter is back at 0. *)
Theorem prettyPrint_depth_is_bounded_by_the_nesting :
  forall (stream : value -> string) (c : ty) (q : qualifiers) (x : value),
    well_declared c = true ->
    instance_of c x = true ->
    lvalue_object q = true ->
    isReflectable (plain c) = true ->
    (exists lines,
        prettyPrint_leaf_lines stream {| q_base := c; q_quals := q |} x = Ok lines
        /\ Forall (fun l : leaf_line => 0 <= fst (fst l) < Z.of_nat (nesting c)) lines)
    /\ (forall cout : string,
           exists text,
             visit_with_hooks (prettyPrint_leaf stream) prettyPrint_enter prettyPrint_exit
                              {| q_base := c; q_quals := q |} x (0, cout)
             = Ok (0, text)).
Proof.
  intros stream c q x Hwd Hinst Hq Hrefl. split.
  - unfold prettyPrint_leaf_lines.
    rewrite isReflectable_base, Hrefl. cbn [static_assert bind].
    rewrite visit_with_hooks_events by assumption.
    destruct (run_logged_depths stream (spec_events c q x)
                                (0, ("{" ++ newline)%string) []
                                (spec_events_readable c q x Hwd Hinst Hq))
      as [s' [log' [Hrun Hdepths]]].
    exists log'. split.
    + match goal with
      | |- bind ?r _ = _ =>
          replace r with (Ok (s', [] ++ log') : result (pp_state * list leaf_line))
            by (symmetry; exact Hrun)
      end.
      reflexivity.
    + cbn [fst] in Hdepths.
      pose proof (leaf_depths_bounded c q x 0 Hwd Hinst Hq) as Hb.
      rewrite <- Hdepths in Hb. rewrite Forall_map in Hb.
      eapply Forall_impl; [|exact Hb]. intros l Hl. cbn beta in Hl. lia.
  - intros cout. eexists.
    rewrite visit_with_hooks_events by assumption.
    rewrite run_prettyPrint by (apply spec_events_readable; assumption).
    rewrite (depth_after_nested _ (spec_events_nested c q x)). reflexivity.
Qed.

Lemma prettyPrint_depth_is_bounded_by_the_nesting_witness :
  well_declared ManyPoints = true
  /\ instance_of ManyPoints manyPts = true
  /\ lvalue_object (q_quals (lref false ManyPoints)) = true
  /\ isReflectable (plain ManyPoints) = true
  /\ nesting ManyPoints = 3%nat
  /\ exists lines,
      prettyPrint_leaf_lines show (lref false ManyPoints) manyPts = Ok lines
      /\ Forall (fun l : leaf_line => 0 <= fst (fst l) < Z.of_nat (nesting ManyPoints))
                lines.
Proof.
  do 5 (split; [reflexivity|]).
  apply (proj1 (prettyPrint_depth_is_bounded_by_the_nesting
                  show ManyPoints (q_quals (lref false ManyPoints)) manyPts
                  eq_refl eq_refl eq_refl eq_refl)).
Defined.

(** ** Members that are not listed *)





(** ** The layout of the class *)

Lemma lookup_not_in {A} (n : string) (l : list (string * A)) :
  ~ In n (map fst l) -> lookup n l = None.
Proof.
  induction l as [|[k a] rest IH]; intros H; [reflexivity|].
  cbn [lookup]. destruct (String.eqb_spec k n) as [->|_].
  - exfalso. apply H. left. reflexivity.
  - apply IH. intros Hin. apply H. right. exact Hin.
Qed.

(** With distinct member names, a member is found whatever the order the
    members are declared in. *)
Lemma lookup_Permutation {A} (n : string) (l l' : list (string * A)) :
  Permutation l l' ->
  NoDup (map fst l) ->
  lookup n l = lookup n l'.
Proof.
  induction 1 as [|[k a] l l' Hperm IH|[k1 a1] [k2 a2] l|l l' l'' H1 IH1 H2 IH2];
    intros Hnd.
  - reflexivity.
  - cbn [lookup]. inversion Hnd; subst. rewrite IH by assumption. reflexivity.
  - cbn [lookup]. cbn [map fst] in Hnd. inversion Hnd as [|? ? Hnotin _]; subst.
    destruct (String.eqb_spec k1 n) as [->|_], (String.eqb_spec k2 n) as [->|_];
      try reflexivity.
    exfalso. apply Hnotin. left. reflexivity.
  - rewrite IH1 by assumption. apply IH2.
    apply (Permutation_NoDup (Permutation_map fst H1)). assumption.
Qed.

(** X14 — the traversal follows the order of the names in
    [REFLECTABLE(...)], not the order the data members are declared in:
    two classes with the same (distinctly named) members in different
    order and the same list of names give the same sequence of calls and
    the same leaf paths. *)
Theorem traversal_order_ignores_the_layout :
  forall (cn : string) (ms ms' : list (string * ty)) (va : list string)
         (q : qualifiers) (x x' : value),
    Permutation ms ms' ->
    NoDup (map fst ms) ->
    well_declared (Class cn ms (Some va)) = true ->
    well_declared (Class cn ms' (Some va)) = true ->
    instance_of (Class cn ms (Some va)) x = true ->
    instance_of (Class cn ms' (Some va)) x' = true ->
    lvalue_object q = true ->
    leaf_paths (Class cn ms (Some va)) = leaf_paths (Class cn ms' (Some va))
    /\ visit_with_hooks log_call_leaf log_call_enter log_call_exit
                        {| q_base := Class cn ms (Some va); q_quals := q |} x []
       = visit_with_hooks log_call_leaf log_call_enter log_call_exit
                          {| q_base := Class cn ms' (Some va); q_quals := q |} x' [].
Proof.
  intros cn ms ms' va q x x' Hperm Hnd Hwd Hwd' Hinst Hinst' Hq. split.
  - cbn [leaf_paths]. apply flat_map_ext. intros dm.
    rewrite !with_member_type_lookup, (lookup_Permutation dm ms ms' Hperm Hnd).
    reflexivity.
  - rewrite !visit_calls by (try assumption; reflexivity).
    f_equal. cbn [type_calls]. apply flat_map_ext. intros dm.
    rewrite !with_member_type_lookup, (lookup_Permutation dm ms ms' Hperm Hnd).
    reflexivity.
Qed.

Lemma traversal_order_ignores_the_layout_witness :
  Permutation [("a", int); ("b", R2)] [("b", R2); ("a", int)]
  /\ NoDup (map fst [("a", int); ("b", R2)])
  /\ leaf_paths (Class "R1" [("a", int); ("b", R2)] (Some ["a"; "b"]))
     = leaf_paths (Class "R1" [("b", R2); ("a", int)] (Some ["a"; "b"])).
Proof.
  assert (Hperm : Permutation [("a", int); ("b", R2)] [("b", R2); ("a", int)])
    by apply perm_swap.
  assert (Hnd : NoDup (map fst [("a", int); ("b", R2)])).
  { repeat constructor; simpl; intuition discriminate. }
  split; [exact Hperm|]. split; [exact Hnd|].
  apply (proj1 (traversal_order_ignores_the_layout
                  "R1" [("a", int); ("b", R2)] [("b", R2); ("a", int)] ["a"; "b"]
                  (q_quals (lref false R1)) r1
                  (Object [("b", Object [("c", Scalar 2); ("d", Scalar 3)]);
                           ("a", Scalar 1)])
                  Hperm Hnd eq_refl eq_refl eq_refl eq_refl eq_refl)).
Defined.


(** ** prettyPrint, told from the class and the instance *)

Lemma fold_right_seq_from {A} (g : string -> A -> A) (f : nat -> A -> A) (a0 : A) :
  forall (va : list string) (start : nat),
    (forall N dm, nth_error va N = Some dm -> f (start + N)%nat = g dm) ->
    fold_right f a0 (seq start (length va)) = fold_right g a0 va.
Proof.
  induction va as [|a rest IH]; intros start H; [reflexivity|].
  cbn [length seq fold_right].
  pose proof (H 0%nat a eq_refl) as H0. rewrite Nat.add_0_r in H0.
  rewrite H0. f_equal. apply IH. intros N dm Hnth.
  replace (Datatypes.S start + N)%nat with (start + Datatypes.S N)%nat by lia.
  apply H. exact Hnth.
Qed.

Lemma fold_right_seq_nth {A} (g : string -> A -> A) (a0 : A)
      (va : list string) (f : nat -> A -> A) :
  (forall N dm, nth_error va N = Some dm -> f N = g dm) ->
  fold_right f a0 (seq 0 (length va)) = fold_right g a0 va.
Proof.
  intros H. apply fold_right_seq_from. exact H.
Qed.

Lemma pp_render_flat_map {A} (stream : value -> string) (f : A -> list event)
      (l : list A) (depth : Z) :
  (forall a, In a l -> nested (f a)) ->
  pp_render stream depth (flat_map f l)
  = fold_right (fun a rest => (pp_render stream depth (f a) ++ rest)%string)
               EmptyString l.
Proof.
  induction l as [|a rest IH]; intros H; [reflexivity|].
  cbn [flat_map fold_right]. rewrite pp_render_app.
  rewrite (depth_after_nested (f a) (H a (or_introl eq_refl))).
  rewrite IH; [reflexivity|]. intros a' Ha'. apply H. right. assumption.
Qed.

Lemma pp_render_spec_events (stream : value -> string) :
  forall (c : ty) (q : qualifiers) (x : value) (depth : Z),
    well_declared c = true ->
    instance_of c x = true ->
    lvalue_object q = true ->
    pp_render stream depth (spec_events c q x) = pp_members stream c x depth.
Proof.
  induction c as [tn | cn ms args IH] using ty_ind; intros q x depth Hwd Hinst Hq;
    [reflexivity|].
  destruct args as [va|]; [|reflexivity].
  rewrite spec_events_unfold, getNumberOfFields_declared, Nat2Z.id by assumption.
  rewrite pp_render_flat_map by (intros N _; apply spec_field_nested).
  cbn [pp_members]. apply fold_right_seq_nth. intros N dm Hnth.
  destruct (field_facts cn ms va q x N Hwd Hinst Hq) as
      [dm' [U [v [Hnth' [HU [Hfd [Hget [HwU HiU]]]]]]]].
  { apply nth_error_Some. rewrite Hnth. discriminate. }
  rewrite Hnth in Hnth'. inversion Hnth'; subst dm'.
  pose proof (get_Ok_member_access _ _ Hget) as Hv.
  cbn [fd_self fd_dataMember ref_to so_value] in Hv.
  unfold spec_field. rewrite Hfd. cbn [fd_dataMember].
  rewrite !with_member_type_lookup, HU, Hv.
  destruct (isReflectable (plain U)).
  - rewrite Hget. cbn [ref_to so_value].
    rewrite (pp_render_block stream _ [] depth (spec_events_nested _ _ _)).
    rewrite Forall_forall in IH. destruct (lookup_In _ _ _ HU) as [n' Hin].
    rewrite (IH (n', U) Hin) by (try assumption; reflexivity).
    cbn [pp_render snd]. rewrite ?append_nil_r, ?append_assoc. reflexivity.
  - cbn [pp_render]. unfold leaf_text. rewrite Hget.
    cbn [name fd_dataMember ref_to so_value].
    rewrite ?append_nil_r, ?append_assoc. reflexivity.
Qed.

(** X15 — what prettyPrint writes, read off the class and the instance: it
    appends to the stream an opening brace, then for each listed member in
    listing order either the line [name = value,] (a leaf) or a block [{],
    the members of the nested object one unit deeper, [},] (a composite),
    then the closing brace; the text is the same for a const and for a
    non-const instance. *)
Theorem prettyPrint_writes_the_members :
  forall (stream : value -> string) (c : ty) (q q' : qualifiers) (x : value)
         (cout : string),
    well_declared c = true ->
    instance_of c x = true ->
    lvalue_object q = true ->
    lvalue_object q' = true ->
    isReflectable (plain c) = true ->
    prettyPrint stream {| q_base := c; q_quals := q |} x cout
    = Ok (cout ++ "{" ++ newline ++ pp_members stream c x 0 ++ "}" ++ newline)%string
    /\ prettyPrint stream {| q_base := c; q_quals := q' |} x cout
       = prettyPrint stream {| q_base := c; q_quals := q |} x cout.
Proof.
  intros stream c q q' x cout Hwd Hinst Hq Hq' Hrefl.
  rewrite !prettyPrint_renders by assumption.
  rewrite !pp_render_spec_events by assumption. split; reflexivity.
Qed.

Lemma prettyPrint_writes_the_members_witness :
  well_declared R1 = true
  /\ instance_of R1 r1 = true
  /\ lvalue_object (q_quals (lref false R1)) = true
  /\ lvalue_object (q_quals (lref true R1)) = true
  /\ isReflectable (plain R1) = true
  /\ prettyPrint show (lref false R1) r1 ""
     = Ok ("" ++ "{" ++ newline ++ pp_members show R1 r1 0 ++ "}" ++ newline)%string.
Proof.
  do 5 (split; [reflexivity|]).
  apply (prettyPrint_writes_the_members
           show R1 (q_quals (lref false R1)) (q_quals (lref true R1)) r1 ""
           eq_refl eq_refl eq_refl eq_refl eq_refl).
Defined.

(** ** Hooks and leaves do not interfere *)

Lemma run_on_parts {A B} (func : FieldData -> A -> result A) (enterB exitB : B -> B) :
  forall (events : list event) (a : A) (b : B),
    run (on_first func) (on_second enterB) (on_second exitB) events (a, b)
    = (a' <- run_leaves func (leaves_of events) a ;;
       Ok (a', fold_left (fun b e => match e with
                                     | leaf _ => b
                                     | enter => enterB b
                                     | exit => exitB b
                                     end) events b)).
Proof.
  induction events as [|e rest IH]; intros a b; [reflexivity|].
  destruct e as [d| |]; cbn [run leaves_of run_leaves fold_left].
  - unfold on_first at 1. cbn [fst snd].
    destruct (func d a) as [a'|err]; [|reflexivity]. cbn [bind]. apply IH.
  - unfold on_second at 3. cbn [fst snd]. apply IH.
  - unfold on_second at 3. cbn [fst snd]. apply IH.
Qed.

(** X16 — where the hook-augmented [visit] finds [_internal_visit] for
    every composite member the class lists, it is the plain [visit] with
    the hooks called in between: when the leaf callback and the hooks keep
    separate state, the leaf callback's part of the result is what [visit]
    without hooks returns, whatever the hooks do. *)
Theorem hooks_do_not_change_the_leaf_calls :
  forall (A B : Type) (func : FieldData -> A -> result A) (enterB exitB : B -> B)
         (associated : ty -> bool)
         (c : ty) (q : qualifiers) (x : value) (a : A) (b : B),
    well_declared c = true ->
    instance_of c x = true ->
    lvalue_object q = true ->
    isReflectable (plain c) = true ->
    lookup_succeeds associated c = true ->
    (s <- visit_with_hooks_by_lookup (on_first func) (on_second enterB) (on_second exitB)
                                     associated {| q_base := c; q_quals := q |} x (a, b) ;;
     Ok (fst s))
    = visit func {| q_base := c; q_quals := q |} x a.
Proof.
  intros A B func enterB exitB associated c q x a b Hwd Hinst Hq Hrefl Hfound.
  rewrite visit_with_hooks_by_lookup_found by exact Hfound.
  unfold visit. rewrite !visit_with_hooks_events by assumption.
  rewrite run_on_parts, run_without_hooks.
  destruct (run_leaves func (leaves_of (spec_events c q x)) a); reflexivity.
Qed.

Lemma hooks_do_not_change_the_leaf_calls_witness :
  well_declared R1 = true
  /\ instance_of R1 r1 = true
  /\ lvalue_object (q_quals (lref false R1)) = true
  /\ isReflectable (plain R1) = true
  /\ lookup_succeeds of_the_header R1 = true
  /\ (s <- visit_with_hooks_by_lookup (on_first (fun d log => Ok (log ++ [name d])))
                                      (on_second Z.succ) (on_second Z.pred)
                                      of_the_header (lref false R1) r1 ([], 0) ;;
      Ok (fst s))
     = visit (fun d log => Ok (log ++ [name d])) (lref false R1) r1 [].
Proof.
  do 5 (split; [reflexivity|]).
  apply (hooks_do_not_change_the_leaf_calls
           (list string) Z (fun d log => Ok (log ++ [name d])) Z.succ Z.pred
           of_the_header R1 (q_quals (lref false R1)) r1 [] 0
           eq_refl eq_refl eq_refl eq_refl eq_refl).
Defined.
